(** * mntime: statistics engine, time-command reports and CLI normalisation

    A shallow embedding of [src/stats.rs], [src/mean.rs], the report part of
    [src/cmd.rs] and the command normalisation of [src/cli_args.rs].

    Rust's [f64] is modelled by [spec_float] at binary64 parameters
    (prec = 53, emax = 1024): the Standard Library's executable IEEE-754
    specification, rounding to nearest-even as Rust does. *)

From Stdlib Require Import Floats Ascii String.
From stdpp Require Import base list strings sorting pretty.

#[local] Set Warnings "-inexact-float".

(* ================================================================= *)
(** ** Binary64 arithmetic *)

Module F64.

Abbreviation f64 := spec_float.

Definition prec : Z := 53%Z.
Definition emax : Z := 1024%Z.

Definition add : f64 -> f64 -> f64 := SFadd prec emax.
Definition sub : f64 -> f64 -> f64 := SFsub prec emax.
Definition mul : f64 -> f64 -> f64 := SFmul prec emax.
Definition div : f64 -> f64 -> f64 := SFdiv prec emax.
Definition sqrt : f64 -> f64 := SFsqrt prec emax.
Definition abs : f64 -> f64 := SFabs.
Definition eqb : f64 -> f64 -> bool := SFeqb.
Definition ltb : f64 -> f64 -> bool := SFltb.
Definition leb : f64 -> f64 -> bool := SFleb.

(** [x.powi(2)]: compiler-rt's [__powidf2] computes [1.0 * (x * x)], and
    multiplying by one is exact. *)
Definition powi2 (x : f64) : f64 := mul x x.

(** [n as f64] for a [usize] [n], rounded to nearest. *)
Definition of_nat (n : nat) : f64 :=
  binary_normalize prec emax (Z.of_nat n) 0 false.

(** [f64::is_finite]. *)
Definition is_finite (x : f64) : bool :=
  match x with
  | S754_zero _ | S754_finite _ _ _ => true
  | _ => false
  end.

Definition zero : f64 := S754_zero false.
Definition neg_zero : f64 := S754_zero true.
Definition three : f64 := Eval vm_compute in Prim2SF 3.0%float.
Definition nan : f64 := S754_nan.
Definition infinity : f64 := S754_infinity false.

(** [f64] literal from a primitive float literal. *)
Definition lit (x : float) : f64 := Prim2SF x.

End F64.

Import F64.

(* ================================================================= *)
(** ** [Vec] helpers *)

(** [sorted[i]] at an index the caller keeps in range. *)
Definition idx (l : list f64) (i : nat) : f64 := nth i l zero.

(** [Vec::insert(index, x)] for [index <= len]. *)
Definition vec_insert (i : nat) (x : f64) (l : list f64) : list f64 :=
  take i l ++ x :: drop i l.

(* ================================================================= *)
(** ** [stats.rs]: [bisect_right], [search_right], [sort_only_finite] *)

Module StatsRs.

(** [for i in (lo..hi).rev() { if sorted[i] <= x { return i + 1; } } lo],
    with [k] the number of indices [lo + k - 1, ..., lo] left to try. *)
Fixpoint search_right_loop (sorted : list f64) (x : f64) (lo k : nat) : nat :=
  match k with
  | O => lo
  | S k' =>
      if F64.leb (idx sorted (lo + k')) x then S (lo + k')
      else search_right_loop sorted x lo k'
  end.

Definition search_right (sorted : list f64) (x : f64) (lo hi : nat) : nat :=
  search_right_loop sorted x lo (hi - lo).

(** [while index < sorted.len() && x == sorted[index] { index += 1; }],
    [rest] being [sorted[index..]]. *)
Fixpoint skip_equal (x : f64) (rest : list f64) (index : nat) : nat :=
  match rest with
  | [] => index
  | y :: rest' => if F64.eqb x y then skip_equal x rest' (S index) else index
  end.

(** The recursion of [bisect_right]; [fuel] bounds the depth and exceeds
    [hi - lo] at every call made from [bisect_right], so the [O] case is
    never taken from there. *)
Fixpoint bisect_right_go (fuel : nat) (sorted : list f64) (x : f64) (lo hi : nat)
  : nat :=
  match fuel with
  | O => hi
  | S fuel' =>
      if hi <=? lo then hi
      else if hi + 7 <=? lo then search_right sorted x lo hi
      else
        let mid := lo + (hi - lo) / 2 in
        if F64.ltb x (idx sorted mid) then bisect_right_go fuel' sorted x lo mid
        else if F64.ltb (idx sorted mid) x then
          bisect_right_go fuel' sorted x (S mid) hi
        else skip_equal x (drop (S mid) sorted) (S mid)
  end.

Definition bisect_right (sorted : list f64) (x : f64) (lo hi : nat) : nat :=
  bisect_right_go (S (hi - lo)) sorted x lo hi.

(** One iteration of the loop of [sort_only_finite]. *)
Definition insert_finite (sorted : list f64) (x : f64) : list f64 :=
  if negb (F64.is_finite x) then sorted
  else vec_insert (bisect_right sorted x 0 (length sorted)) x sorted.

Definition sort_only_finite (data : list f64) : list f64 :=
  fold_left insert_finite data [].

End StatsRs.

(* ================================================================= *)
(** ** [stats.rs]: [struct Stats] and its methods *)

Record Stats := mkStats {
  sorted_samples : list f64;
  nan_count : nat;
  mad : f64;
  outlier_count : nat;
  lcl : f64;
  ucl : f64;
  mean : f64;
  mean_excluding_outlier : f64;
  stdev : f64;
  stdev_excluding_outlier : f64;
}.

(** [#[derive(Default)]]: empty vector, [0] and [0.0]. *)
Definition stats_default : Stats :=
  mkStats [] 0 zero 0 zero zero zero zero zero zero.

Definition coefficient : f64 := Eval vm_compute in Prim2SF 1.4826%float.

(** [sorted.iter().sum()]: a left fold of [+] from [-0.0], the neutral
    element of the standard library's [Sum for f64]. *)
Definition sum (l : list f64) : f64 := fold_left F64.add l neg_zero.

(** [*sorted.first().unwrap_or(&0.0)] and [*sorted.last().unwrap_or(&0.0)]. *)
Definition first_or_zero (l : list f64) : f64 :=
  match l with [] => zero | x :: _ => x end.
Definition last_or_zero (l : list f64) : f64 := default zero (last l).

(** [lcl <= x && x <= ucl], the membership test the folds of [calc] use. *)
Definition within (lo hi x : f64) : bool := F64.leb lo x && F64.leb x hi.

(** [Stats::calc]. *)
Definition calc (st : Stats) : Stats :=
  match sorted_samples st with
  | [] => st
  | _ =>
    let sorted := sorted_samples st in
    let count := length sorted in
    let median := idx sorted (count / 2) in
    let sum := sum sorted in
    let mean := F64.div sum (F64.of_nat count) in
    (* the [for r in sorted] loop accumulating [(variance, mad)] *)
    let acc :=
      fold_left (fun acc x =>
                   (F64.add (fst acc) (powi2 (F64.sub x mean)),
                    F64.add (snd acc) (F64.abs (F64.sub x median))))
                sorted (zero, zero) in
    let variance := F64.div (fst acc) (F64.of_nat count) in
    let mad := F64.div (snd acc) (F64.of_nat count) in
    let standard_deviation := F64.sqrt variance in
    let lcl := F64.sub median (F64.mul (F64.mul three coefficient) mad) in
    let ucl := F64.add median (F64.mul (F64.mul three coefficient) mad) in
    let min := first_or_zero sorted in
    let max := last_or_zero sorted in
    let fast := F64.leb lcl min && F64.leb max ucl in
    let outlier_count :=
      if fast then 0
      else fold_left (fun s x => if within lcl ucl x then s else S s) sorted 0 in
    let mean_excluding_outlier :=
      if fast then mean
      else F64.div
             (fold_left (fun s x => if within lcl ucl x then F64.add s x else s)
                sorted zero)
             (F64.of_nat (count - outlier_count)) in
    let stdev_excluding_outlier :=
      if fast then standard_deviation
      else
        let variance_excluding_outlier :=
          F64.div
            (fold_left (fun s x =>
                          if within lcl ucl x
                          then F64.add s (powi2 (F64.sub x mean_excluding_outlier))
                          else s)
               sorted zero)
            (F64.of_nat (count - outlier_count)) in
        F64.sqrt variance_excluding_outlier in
    {| sorted_samples := sorted_samples st;
       nan_count := nan_count st;
       mad := mad;
       outlier_count := outlier_count;
       lcl := lcl;
       ucl := ucl;
       mean := mean;
       mean_excluding_outlier := mean_excluding_outlier;
       stdev := standard_deviation;
       stdev_excluding_outlier := stdev_excluding_outlier |}
  end.

(** [Stats::new]. *)
Definition new (samples : list f64) : Stats :=
  let sorted := StatsRs.sort_only_finite samples in
  calc {| sorted_samples := sorted;
          nan_count := length samples - length sorted;
          mad := zero; outlier_count := 0; lcl := zero; ucl := zero;
          mean := zero; mean_excluding_outlier := zero;
          stdev := zero; stdev_excluding_outlier := zero |}.

(** [Stats::add]. *)
Definition add (st : Stats) (val : f64) : Stats :=
  if negb (F64.is_finite val) then
    {| sorted_samples := sorted_samples st; nan_count := S (nan_count st);
       mad := mad st; outlier_count := outlier_count st; lcl := lcl st;
       ucl := ucl st; mean := mean st;
       mean_excluding_outlier := mean_excluding_outlier st;
       stdev := stdev st; stdev_excluding_outlier := stdev_excluding_outlier st |}
  else
    let sorted := sorted_samples st in
    let index := StatsRs.bisect_right sorted val 0 (length sorted) in
    calc {| sorted_samples := vec_insert index val sorted;
            nan_count := nan_count st;
            mad := mad st; outlier_count := outlier_count st; lcl := lcl st;
            ucl := ucl st; mean := mean st;
            mean_excluding_outlier := mean_excluding_outlier st;
            stdev := stdev st;
            stdev_excluding_outlier := stdev_excluding_outlier st |}.

Definition count (st : Stats) : nat := length (sorted_samples st).

Definition median (st : Stats) : f64 :=
  default zero (sorted_samples st !! (length (sorted_samples st) / 2)).
Definition min (st : Stats) : f64 := first_or_zero (sorted_samples st).
Definition max (st : Stats) : f64 := last_or_zero (sorted_samples st).

(** [.iter().find(|x| self.lcl <= **x).unwrap_or(&0.0)]. *)
Definition min_excluding_outlier (st : Stats) : f64 :=
  default zero (List.find (fun x => F64.leb (lcl st) x) (sorted_samples st)).

(** [.iter().filter(|x| **x <= self.ucl).nth_back(0).unwrap_or(&0.0)]. *)
Definition max_excluding_outlier (st : Stats) : f64 :=
  default zero (last (List.filter (fun x => F64.leb x (ucl st)) (sorted_samples st))).

(** [let it = .iter().filter(|x| lcl <= **x && **x <= ucl);
     *it.nth(it.clone().count() / 2).unwrap_or(&0.0)]. *)
Definition median_excluding_outlier (st : Stats) : f64 :=
  let excluding_outlier := List.filter (within (lcl st) (ucl st)) (sorted_samples st) in
  let count := length excluding_outlier in
  default zero (excluding_outlier !! (count / 2)).

Definition has_outlier (st : Stats) : bool := 0 <? outlier_count st.

(** [count_excluding_outlier]: a [usize] subtraction, [None] where it
    would overflow. *)
Definition count_excluding_outlier (st : Stats) : option nat :=
  if outlier_count st <=? length (sorted_samples st)
  then Some (length (sorted_samples st) - outlier_count st)
  else None.

Definition hundred : f64 := Eval vm_compute in Prim2SF 100.0%float.

(** [calc_cv] and [calc_cv_excluding_outlier]. *)
Definition calc_cv (st : Stats) : f64 :=
  if F64.ltb zero (mean st) then F64.div (stdev st) (mean st)
  else if F64.ltb zero (stdev st) then hundred
  else zero.

Definition calc_cv_excluding_outlier (st : Stats) : f64 :=
  if F64.ltb zero (mean_excluding_outlier st)
  then F64.div (stdev_excluding_outlier st) (mean_excluding_outlier st)
  else if F64.ltb zero (stdev_excluding_outlier st) then hundred
  else zero.

(** A [Stats] built by [Stats::new(samples)] followed by [add] of each of
    [adds] in turn. *)
Definition run (samples adds : list f64) : Stats := fold_left add adds (new samples).

(** The state [calc] produces from sorted samples and a non-finite count
    alone, every other field starting from its default. *)
Definition of_sorted (sorted : list f64) (n : nat) : Stats :=
  calc {| sorted_samples := sorted; nan_count := n;
          mad := zero; outlier_count := 0; lcl := zero; ucl := zero;
          mean := zero; mean_excluding_outlier := zero;
          stdev := zero; stdev_excluding_outlier := zero |}.

(** The same state with [nan_count] replaced. *)
Definition set_nan_count (st : Stats) (n : nat) : Stats :=
  {| sorted_samples := sorted_samples st; nan_count := n;
     mad := mad st; outlier_count := outlier_count st; lcl := lcl st;
     ucl := ucl st; mean := mean st;
     mean_excluding_outlier := mean_excluding_outlier st;
     stdev := stdev st; stdev_excluding_outlier := stdev_excluding_outlier st |}.

(** Numeric equality of binary64 values: the same value, where [+0.0] and
    [-0.0] count as one (they compare equal under [==]). *)
Definition num_eq (x y : f64) : Prop :=
  match x, y with
  | S754_zero _, S754_zero _ => True
  | _, _ => x = y
  end.

(* ----------------------------------------------------------------- *)
(** The unit tests of [stats.rs], evaluated on the model. The tests compare
    means with [assert_ulps_eq!]; the model gives the same values, one unit in
    the last place below the decimal ones, where the sum rounds down. *)

Definition test_normal : list f64 := map lit [3.0; 2.9; 3.1; 2.95; 3.05]%float.
Definition test_outlier : list f64 :=
  map lit [0.0; 3.0; 2.9; 3.1; 2.95; 3.05; 10.0]%float.

Example stats_calculate_normal_sorted :
  sorted_samples (new test_normal) = map lit [2.9; 2.95; 3.0; 3.05; 3.1]%float.
Proof. vm_compute. reflexivity. Qed.

Example stats_calculate_normal_fields :
  outlier_count (new test_normal) = 0 /\ nan_count (new test_normal) = 0 /\
  median (new test_normal) = lit 3.0 /\ mean (new test_normal) = lit 2.9999999999999996 /\
  stdev (new test_normal) = lit 0.07071067811865475.
Proof. vm_compute. repeat split. Qed.

Example stats_calculate_outlier_fields :
  outlier_count (new test_outlier) = 1 /\
  mean (new test_outlier) = lit 3.5714285714285716 /\
  mean_excluding_outlier (new test_outlier) = lit 2.4999999999999996 /\
  stdev (new test_outlier) = lit 2.8218354137052035 /\
  stdev_excluding_outlier (new test_outlier) = lit 1.1198958284888227 /\
  mad (new test_outlier) = lit 1.4714285714285715.
Proof. vm_compute. repeat split. Qed.

Example stats_add_test :
  let st := add (add (new test_outlier) infinity) (lit 2.95) in
  sorted_samples st = map lit [0.0; 2.9; 2.95; 2.95; 3.0; 3.05; 3.1; 10.0]%float /\
  nan_count st = 1 /\ outlier_count st = 1 /\
  mean st = lit 3.4937500000000004 /\
  stdev_excluding_outlier st = lit 1.0487115515561687.
Proof. vm_compute. repeat split. Qed.

Example bisect_right_all :
  let sorted := map lit [0.0; 1.0; 2.0; 3.0; 4.0; 5.0; 6.0; 7.0; 8.0; 9.0; 10.0;
    10.0; 10.0; 10.0; 10.0; 10.0; 10.0; 10.0; 10.0; 10.0; 20.0; 20.0]%float in
  map (fun x => StatsRs.bisect_right sorted (lit x) 0 (length sorted))
    [-1.0; 0.0; 9.0; 10.0; 30.0]%float = [0; 1; 10; 20; 22].
Proof. vm_compute. reflexivity. Qed.

(* ================================================================= *)
(** ** [mean.rs]: the earlier statistics type [Mean] *)

(** [mean.rs] keeps its own copies of [sort_only_finite], [bisect_right]
    and [search_right]. A panic is [None]: slice indexing out of bounds and
    [Vec::insert] past the end both panic. *)
Module MeanRs.

(** [while x == sorted[index] { index += 1; }], [rest] being
    [sorted[index..]]; an empty [rest] is [index == sorted.len()], where the
    indexing panics. *)
Fixpoint skip_equal (x : f64) (rest : list f64) (index : nat) : option nat :=
  match rest with
  | [] => None
  | y :: rest' => if F64.eqb x y then skip_equal x rest' (S index) else Some index
  end.

(** [bisect_right] of [mean.rs]; [fuel] as in [StatsRs.bisect_right_go].
    The [hi + 7 <= lo] branch follows [hi <= lo] being false and is never
    taken; it calls the same [search_right] as [stats.rs]. *)
Fixpoint bisect_right_go (fuel : nat) (sorted : list f64) (x : f64) (lo hi : nat)
  : option nat :=
  match fuel with
  | O => Some hi
  | S fuel' =>
      if hi <=? lo then Some hi
      else if hi + 7 <=? lo then Some (StatsRs.search_right sorted x lo hi)
      else
        let mid := lo + (hi - lo) / 2 in
        match sorted !! mid with
        | None => None
        | Some y =>
            if F64.ltb x y then bisect_right_go fuel' sorted x lo mid
            else if F64.ltb y x then bisect_right_go fuel' sorted x (S mid) hi
            else skip_equal x (drop (S mid) sorted) (S mid)
        end
  end.

Definition bisect_right (sorted : list f64) (x : f64) (lo hi : nat) : option nat :=
  bisect_right_go (S (hi - lo)) sorted x lo hi.

(** One iteration of the loop of [sort_only_finite]. *)
Definition insert_finite (sorted : list f64) (x : f64) : option (list f64) :=
  if negb (F64.is_finite x) then Some sorted
  else
    match bisect_right sorted x 0 (length sorted) with
    | None => None
    | Some ins_index =>
        if ins_index <=? length sorted then Some (vec_insert ins_index x sorted)
        else None
    end.

Definition sort_only_finite (data : list f64) : option (list f64) :=
  fold_left (fun acc x => match acc with
                          | None => None
                          | Some sorted => insert_finite sorted x
                          end) data (Some []).

Record Mean := mkMean {
  sorted_population : list f64;
  nan_count : nat;
  median : f64;
  mad : f64;
  outlier_count : nat;
  outlier_lower : f64;
  outlier_upper : f64;
  mean : f64;
  mean_excluding_outlier : f64;
  stdev : f64;
  stdev_excluding_outlier : f64;
}.

Definition mean_default : Mean :=
  mkMean [] 0 zero zero 0 zero zero zero zero zero zero.

(** [Mean::new]; [None] when it panics. *)
Definition Mean_new (population : list f64) : option Mean :=
  match population with
  | [] => Some mean_default
  | _ =>
    match sort_only_finite population with
    | None => None
    | Some sorted =>
      let count := length sorted in
      if count =? 0 then
        Some (mkMean [] 0 zero zero (length population) zero zero zero zero zero zero)
      else
        let median := idx sorted (count / 2) in
        let sum := sum sorted in
        let mean := F64.div sum (F64.of_nat count) in
        let acc :=
          fold_left (fun acc x =>
                       (F64.add (fst acc) (powi2 (F64.sub x mean)),
                        F64.add (snd acc) (F64.abs (F64.sub x median))))
                    sorted (zero, zero) in
        let variance := F64.div (fst acc) (F64.of_nat count) in
        let mad := F64.div (snd acc) (F64.of_nat count) in
        let standard_deviation := F64.sqrt variance in
        let lower := F64.sub median (F64.mul (F64.mul three coefficient) mad) in
        let upper := F64.add median (F64.mul (F64.mul three coefficient) mad) in
        let min := first_or_zero sorted in
        let max := last_or_zero sorted in
        let fast := F64.leb lower min && F64.leb max upper in
        let outlier_count :=
          if fast then 0
          else fold_left (fun s x => if within lower upper x then s else S s) sorted 0 in
        let mean_excluding_outlier :=
          if fast then mean
          else F64.div
                 (fold_left (fun s x => if within lower upper x then F64.add s x else s)
                    sorted zero)
                 (F64.of_nat (count - outlier_count)) in
        let stdev_excluding_outlier :=
          if fast then standard_deviation
          else
            F64.sqrt
              (F64.div
                 (fold_left (fun s x =>
                               if within lower upper x
                               then F64.add s (powi2 (F64.sub x mean_excluding_outlier))
                               else s)
                    sorted zero)
                 (F64.of_nat (count - outlier_count))) in
        Some {| sorted_population := sorted;
                nan_count := length population - count;
                median := median;
                mad := mad;
                outlier_count := outlier_count;
                outlier_lower := lower;
                outlier_upper := upper;
                mean := mean;
                mean_excluding_outlier := mean_excluding_outlier;
                stdev := standard_deviation;
                stdev_excluding_outlier := stdev_excluding_outlier |}
    end
  end.

End MeanRs.

(** The unit tests of [mean.rs] that run without a panic. *)
Example mean_calculate_normal_sorted :
  option_map MeanRs.sorted_population (MeanRs.Mean_new test_normal) =
  Some (map lit [2.9; 2.95; 3.0; 3.05; 3.1]%float).
Proof. vm_compute. reflexivity. Qed.

Example mean_bisect_right_all :
  let sorted := map lit [0.0; 1.0; 2.0; 3.0; 4.0; 5.0; 6.0; 7.0; 8.0; 9.0; 10.0;
    10.0; 10.0; 10.0; 10.0; 10.0; 10.0; 10.0; 10.0; 10.0; 20.0; 20.0]%float in
  map (fun x => MeanRs.bisect_right sorted (lit x) 0 (length sorted))
    [-1.0; 0.0; 9.0; 10.0; 30.0]%float = [Some 0; Some 1; Some 10; Some 20; Some 22].
Proof. vm_compute. reflexivity. Qed.

(* ================================================================= *)
(** ** [cmd.rs]: measurement reports and [TimeCmd::get_report] *)

Module Cmd.

Inductive MeasItem :=
  | ExitStatus | Real | User | Sys | CpuUsage | AvgSharedText | AvgUnsharedData
  | AvgStack | AvgTotal | MaxResident | AvgResident | MajorPageFault
  | MinorPageFault | VoluntaryCtxSwitch | InvoluntaryCtxSwitch | Swap
  | BlockInput | BlockOutput | MsgSend | MsgRecv | SignalRecv | Page
  | Instruction | Cycle | PeakMemory | Unknown (name : string).

#[global] Instance MeasItem_eq_dec : EqDecision MeasItem.
Proof. solve_decision. Defined.

(** [HashMap<MeasItem, f64>] as an association list with no key twice. *)
Definition Report := list (MeasItem * f64).

(** [HashMap::get]. *)
Fixpoint report_get (k : MeasItem) (m : Report) : option f64 :=
  match m with
  | [] => None
  | (k', v) :: m' => if decide (k = k') then Some v else report_get k m'
  end.

(** [HashMap::insert]: the value of a present key is replaced, a new key is
    added. *)
Fixpoint report_insert (k : MeasItem) (v : f64) (m : Report) : Report :=
  match m with
  | [] => [(k, v)]
  | (k', v') :: m' =>
      if decide (k = k') then (k, v) :: m' else (k', v') :: report_insert k v m'
  end.

(** [HashMap::is_empty]. *)
Definition report_is_empty (m : Report) : bool :=
  match m with [] => true | _ => false end.

(** A match of the time program's regex, as [capture_name_and_val] turns it
    into a name and a value. *)
Definition Capture := (string * f64)%type.

Definition KB : f64 := Eval vm_compute in Prim2SF 1024.0%float.

(** The body of [for cap in re.captures_iter(err_msg)] in the parser of
    [try_new_gnu_time]. *)
Definition gnu_step (meas_items : Report) (cap : Capture) : Report :=
  let '(name, v) := cap in
  if String.eqb name "Command being timed" then meas_items
  else if String.eqb name "User time (seconds)" then report_insert User v meas_items
  else if String.eqb name "System time (seconds)" then report_insert Sys v meas_items
  else if String.eqb name "Percent of CPU this job got" then
    report_insert CpuUsage v meas_items
  else if String.eqb name "Elapsed (wall clock) time (h:mm:ss or m:ss)" then
    report_insert Real v meas_items
  else if String.eqb name "Average shared text size (kbytes)" then
    report_insert AvgSharedText (F64.mul v KB) meas_items
  else if String.eqb name "Average unshared data size (kbytes)" then
    report_insert AvgUnsharedData (F64.mul v KB) meas_items
  else if String.eqb name "Average stack size (kbytes)" then
    report_insert AvgStack (F64.mul v KB) meas_items
  else if String.eqb name "Average total size (kbytes)" then
    report_insert AvgTotal (F64.mul v KB) meas_items
  else if String.eqb name "Maximum resident set size (kbytes)" then
    report_insert MaxResident (F64.mul v KB) meas_items
  else if String.eqb name "Average resident set size (kbytes)" then
    report_insert AvgResident (F64.mul v KB) meas_items
  else if String.eqb name "Major (requiring I/O) page faults" then
    report_insert MajorPageFault v meas_items
  else if String.eqb name "Minor (reclaiming a frame) page faults" then
    report_insert MinorPageFault v meas_items
  else if String.eqb name "Voluntary context switches" then
    report_insert VoluntaryCtxSwitch v meas_items
  else if String.eqb name "Involuntary context switches" then
    report_insert InvoluntaryCtxSwitch v meas_items
  else if String.eqb name "Swaps" then report_insert Swap v meas_items
  else if String.eqb name "File system inputs" then report_insert BlockInput v meas_items
  else if String.eqb name "File system outputs" then report_insert BlockOutput v meas_items
  else if String.eqb name "Socket messages sent" then report_insert MsgSend v meas_items
  else if String.eqb name "Socket messages received" then report_insert MsgRecv v meas_items
  else if String.eqb name "Signals delivered" then report_insert SignalRecv v meas_items
  else if String.eqb name "Page size (bytes)" then report_insert Page v meas_items
  else if String.eqb name "Exit status" then report_insert ExitStatus v meas_items
  else report_insert (Unknown name) v meas_items.

(** The parser closure of [try_new_gnu_time], over the captures of its
    regex in the diagnostic text. *)
Definition gnu_parse (caps : list Capture) : Report := fold_left gnu_step caps [].

(** The body of the capture loop in the parser of [try_new_builtin_time]. *)
Definition builtin_step (meas_items : Report) (cap : Capture) : Report :=
  let '(name, v) := cap in
  if String.eqb name "real" then report_insert Real v meas_items
  else if String.eqb name "user" then report_insert User v meas_items
  else if String.eqb name "sys" then report_insert Sys v meas_items
  else report_insert (Unknown name) v meas_items.

Definition builtin_parse (caps : list Capture) : Report := fold_left builtin_step caps [].

(** The body of the capture loop in the parser of [try_new_bsd_time]. *)
Definition bsd_step (meas_items : Report) (cap : Capture) : Report :=
  let '(name, v) := cap in
  if String.eqb name "real" then report_insert Real v meas_items
  else if String.eqb name "user" then report_insert User v meas_items
  else if String.eqb name "sys" then report_insert Sys v meas_items
  else if String.eqb name "maximum resident set size" then
    report_insert MaxResident v meas_items
  else if String.eqb name "average shared memory size" then
    report_insert AvgSharedText v meas_items
  else if String.eqb name "average unshared data size" then
    report_insert AvgUnsharedData v meas_items
  else if String.eqb name "average unshared stack size" then
    report_insert AvgStack v meas_items
  else if String.eqb name "page reclaims" then report_insert MinorPageFault v meas_items
  else if String.eqb name "page faults" then report_insert MajorPageFault v meas_items
  else if String.eqb name "swaps" then report_insert Swap v meas_items
  else if String.eqb name "block input operations" then
    report_insert BlockInput v meas_items
  else if String.eqb name "block output operations" then
    report_insert BlockOutput v meas_items
  else if String.eqb name "messages sent" then report_insert MsgSend v meas_items
  else if String.eqb name "messages received" then report_insert MsgRecv v meas_items
  else if String.eqb name "signals received" then report_insert SignalRecv v meas_items
  else if String.eqb name "voluntary context switches" then
    report_insert VoluntaryCtxSwitch v meas_items
  else if String.eqb name "involuntary context switches" then
    report_insert InvoluntaryCtxSwitch v meas_items
  else if String.eqb name "instructions retired" then
    report_insert Instruction v meas_items
  else if String.eqb name "cycles elapsed" then report_insert Cycle v meas_items
  else if String.eqb name "peak memory footprint" then
    report_insert PeakMemory v meas_items
  else report_insert (Unknown name) v meas_items.

Definition bsd_parse (caps : list Capture) : Report := fold_left bsd_step caps [].

(** [meas_item_name]; [loops] is a [u16], printed by [format!("/{}", loops)]
    in decimal. *)
Definition loops_str (loops : N) : string :=
  if (loops <=? 1)%N then EmptyString else String.append "/" (pretty loops).

Definition meas_item_name (item : MeasItem) (loops : N) : string :=
  match item with
  | ExitStatus => "Exit status"
  | Real => String.append "Elapsed (wall clock) time" (loops_str loops)
  | User => String.append "User time" (loops_str loops)
  | Sys => String.append "System time" (loops_str loops)
  | CpuUsage => "Percent of CPU this job got"
  | AvgSharedText => "Average shared text size"
  | AvgUnsharedData => "Average unshared data size"
  | AvgStack => "Average stack size"
  | AvgTotal => "Average total size"
  | MaxResident => "Maximum resident set size"
  | AvgResident => "Average resident set size"
  | MajorPageFault => String.append "Requiring I/O page faults" (loops_str loops)
  | MinorPageFault => String.append "Reclaiming a frame page faults" (loops_str loops)
  | VoluntaryCtxSwitch => String.append "Voluntary context switches" (loops_str loops)
  | InvoluntaryCtxSwitch => String.append "Involuntary context switches" (loops_str loops)
  | Swap => String.append "Swaps" (loops_str loops)
  | BlockInput => String.append "Block by file system inputs" (loops_str loops)
  | BlockOutput => String.append "Block by file system outputs" (loops_str loops)
  | MsgSend => String.append "Socket messages sent" (loops_str loops)
  | MsgRecv => String.append "Socket messages received" (loops_str loops)
  | SignalRecv => String.append "Signals received" (loops_str loops)
  | Page => "Page size"
  | Instruction => "Instructions retired"
  | Cycle => "Cycles elapsed"
  | PeakMemory => "Peak memory footprint"
  | Unknown name => name
  end.

(** [MeasItem::iter()] of [strum]'s [EnumIter]: the variants in declaration
    order, [Unknown] with the default [String]. *)
Definition meas_item_all : list MeasItem :=
  [ExitStatus; Real; User; Sys; CpuUsage; AvgSharedText; AvgUnsharedData;
   AvgStack; AvgTotal; MaxResident; AvgResident; MajorPageFault; MinorPageFault;
   VoluntaryCtxSwitch; InvoluntaryCtxSwitch; Swap; BlockInput; BlockOutput;
   MsgSend; MsgRecv; SignalRecv; Page; Instruction; Cycle; PeakMemory;
   Unknown EmptyString].

(** The initialiser of [meas_item_name_max_width]; every name is ASCII, so
    [len()] in bytes is [String.length]. *)
Definition max_width (loops : N) : nat :=
  fold_left (fun width item => Nat.max width (String.length (meas_item_name item loops)))
    meas_item_all 0.

(** [meas_item_name_max_width] with the content of its [static] [OnceCell]
    threaded through: [get_or_init] runs the initialiser on an empty cell
    only. *)
Definition meas_item_name_max_width (cell : option nat) (loops : N) : nat * option nat :=
  match cell with
  | Some width => (width, cell)
  | None => let width := max_width loops in (width, Some width)
  end.

(** The results of successive calls with the given [loops] arguments. *)
Fixpoint width_calls (cell : option nat) (loopss : list N) : list nat :=
  match loopss with
  | [] => []
  | loops :: loopss' =>
      let '(width, cell') := meas_item_name_max_width cell loops in
      width :: width_calls cell' loopss'
  end.

(** What [TimeCmd] observes of its [std::process::Child]: whether
    [try_wait] finds it finished, the unread content of its stderr pipe (as
    the captures the parser's regex finds in it) and [ExitStatus::code()],
    [None] when a signal ended the child. *)
Record Process := mkProcess {
  finished : bool;
  stderr_pipe : list Capture;
  exit_code : option Z;
}.

Inductive ReadyStatus := Checking | Ready | Error.

Definition ready_status_eqb (a b : ReadyStatus) : bool :=
  match a, b with
  | Checking, Checking | Ready, Ready | Error, Error => true
  | _, _ => false
  end.

Record TimeCmd := mkTimeCmd {
  process : Process;
  ready_status : ReadyStatus;
  parse_meas_items : list Capture -> Report;
  meas_report : option Report;
}.

(** [CmdError], with [SpawnError] for the [anyhow] error of the free
    function [execute] when the child cannot be started. *)
Inductive CmdError := NotReady | NotFinished | ParseError (what : string) | SpawnError.

(** [anyhow::Result]. *)
Inductive result (A : Type) := Ok (a : A) | Err (e : CmdError).
Arguments Ok {A} a.
Arguments Err {A} e.

Definition set_process (tc : TimeCmd) (p : Process) : TimeCmd :=
  mkTimeCmd p (ready_status tc) (parse_meas_items tc) (meas_report tc).
Definition set_ready_status (tc : TimeCmd) (r : ReadyStatus) : TimeCmd :=
  mkTimeCmd (process tc) r (parse_meas_items tc) (meas_report tc).
Definition set_meas_report (tc : TimeCmd) (m : option Report) : TimeCmd :=
  mkTimeCmd (process tc) (ready_status tc) (parse_meas_items tc) m.

(** The free function [stderr]: [read_to_string] takes all the pipe holds
    and leaves it empty. *)
Definition stderr (p : Process) : list Capture * Process :=
  (stderr_pipe p, mkProcess (finished p) [] (exit_code p)).

(** [code().unwrap_or_default() as f64]: an [i32] converts exactly. *)
Definition exit_code_f64 (p : Process) : f64 :=
  binary_normalize F64.prec F64.emax (default 0%Z (exit_code p)) 0 false.

(** [TimeCmd::try_new_with_command], given the outcome of spawning the
    child ([None] when it cannot be started). *)
Definition try_new_with_command (spawned : option Process)
    (parse_meas_items : list Capture -> Report) : result TimeCmd :=
  match spawned with
  | None => Err SpawnError
  | Some p => Ok (mkTimeCmd p Checking parse_meas_items None)
  end.

(** [TimeCmd::ready_status]. *)
Definition get_ready_status (tc : TimeCmd) : ReadyStatus * TimeCmd :=
  if ready_status_eqb (ready_status tc) Checking && finished (process tc) then
    let '(err_msg, p) := stderr (process tc) in
    let r := if report_is_empty (parse_meas_items tc err_msg) then Error else Ready in
    (r, set_ready_status (set_process tc p) r)
  else (ready_status tc, tc).

(** [TimeCmd::execute], given the outcome of spawning the new child. *)
Definition execute (tc : TimeCmd) (spawned : option Process) : result unit * TimeCmd :=
  if negb (ready_status_eqb (ready_status tc) Ready) then (Err NotReady, tc)
  else
    let tc := set_meas_report tc None in
    match spawned with
    | None => (Err SpawnError, tc)
    | Some p => (Ok tt, set_process tc p)
    end.

(** [TimeCmd::get_report]. *)
Definition get_report (tc : TimeCmd) : result Report * TimeCmd :=
  if negb (finished (process tc)) then (Err NotFinished, tc)
  else
    match meas_report tc with
    | Some r => (Ok r, tc)
    | None =>
        let '(err_msg, p) := stderr (process tc) in
        let tc := set_process tc p in
        let meas_items := parse_meas_items tc err_msg in
        if report_is_empty meas_items then (Err (ParseError "time"), tc)
        else
          let meas_items :=
            match report_get ExitStatus meas_items with
            | None => report_insert ExitStatus (exit_code_f64 p) meas_items
            | Some _ => meas_items
            end in
          (Ok meas_items, set_meas_report tc (Some meas_items))
    end.

(** The states a [TimeCmd] reaches: construction, then any sequence of its
    methods, while the child process changes in any way between calls. *)
Inductive reachable : TimeCmd -> Prop :=
  | reach_new spawned parse tc :
      try_new_with_command spawned parse = Ok tc -> reachable tc
  | reach_process tc p : reachable tc -> reachable (set_process tc p)
  | reach_ready_status tc : reachable tc -> reachable (snd (get_ready_status tc))
  | reach_execute tc spawned : reachable tc -> reachable (snd (execute tc spawned))
  | reach_get_report tc : reachable tc -> reachable (snd (get_report tc)).

End Cmd.

(* ================================================================= *)
(** ** [cli_args.rs]: [CliArgs::normalized_commands] *)

Module CliArgs.

Definition dquote : ascii := ascii_of_nat 34.
Definition squote : ascii := ascii_of_nat 39.
Definition backslash : ascii := ascii_of_nat 92.
Definition space : ascii := ascii_of_nat 32.
Definition dash : ascii := ascii_of_nat 45.

(** [str::starts_with], [str::ends_with] and [str::contains] for one
    character. *)
Definition starts_with (s : string) (c : ascii) : bool :=
  match s with EmptyString => false | String c' _ => Ascii.eqb c' c end.

Fixpoint ends_with (s : string) (c : ascii) : bool :=
  match s with
  | EmptyString => false
  | String c' EmptyString => Ascii.eqb c' c
  | String _ s' => ends_with s' c
  end.

Fixpoint contains (s : string) (c : ascii) : bool :=
  match s with
  | EmptyString => false
  | String c' s' => Ascii.eqb c' c || contains s' c
  end.

(** [str.replace('\'', "\\'")]: a backslash before each single quote. *)
Fixpoint escape_squote (s : string) : string :=
  match s with
  | EmptyString => EmptyString
  | String c s' =>
      if Ascii.eqb c squote then String backslash (String squote (escape_squote s'))
      else String c (escape_squote s')
  end.

Definition is_quoted (s : string) : bool :=
  starts_with s dquote && ends_with s dquote || starts_with s squote && ends_with s squote.

(** [to_quoted]: [format!("'{}'", ...)]. *)
Definition to_quoted (s : string) : string :=
  if is_quoted s || starts_with s dash then s
  else String squote (String.append (escape_squote s) (String squote EmptyString)).

Definition delimiters : string := "--".

(** One iteration of the loop of [normalized_commands], on
    [(commands, one_command_and_args)]. *)
Definition normalize_step (st : list string * list string) (one : string)
  : list string * list string :=
  let '(commands, one_command_and_args) := st in
  match one_command_and_args with
  | [] =>
      if String.eqb one delimiters then (commands, one_command_and_args)
      else if contains one space then (commands ++ [one], one_command_and_args)
      else (commands, one_command_and_args ++ [one])
  | _ :: _ =>
      if String.eqb one delimiters then
        (commands ++ [String.concat " " one_command_and_args], [])
      else (commands, one_command_and_args ++ [to_quoted one])
  end.

(** [CliArgs::normalized_commands] on the positional [commands]. *)
Definition normalized_commands (args : list string) : list string :=
  let '(commands, one_command_and_args) := fold_left normalize_step args ([], []) in
  match one_command_and_args with
  | [] => commands
  | _ :: _ => commands ++ [String.concat " " one_command_and_args]
  end.

End CliArgs.

(** The unit test of [cli_args.rs]. *)
Example cli_args_normalized_commands :
  CliArgs.normalized_commands ["cmd1"] = ["cmd1"] /\
  CliArgs.normalized_commands ["cmd1"; "arg1"] = ["cmd1 'arg1'"] /\
  CliArgs.normalized_commands ["cmd1"; "arg1"; "--"; "cmd2"; "arg1"; "arg2"] =
    ["cmd1 'arg1'"; "cmd2 'arg1' 'arg2'"] /\
  CliArgs.normalized_commands ["cmd1 arg1"; "cmd2 arg1 arg2"] =
    ["cmd1 arg1"; "cmd2 arg1 arg2"] /\
  CliArgs.normalized_commands
    ["cmd1"; "arg1"; "--"; "cmd2";
     String CliArgs.dquote (String.append "arg1 arg2" (String CliArgs.dquote EmptyString))] =
    ["cmd1 'arg1'";
     String.append "cmd2 "
       (String CliArgs.dquote (String.append "arg1 arg2" (String CliArgs.dquote EmptyString)))] /\
  CliArgs.normalized_commands
    ["command1"; "--flag"; "arg"; "--"; "command2"; "--"; "command3 -f -- args";
     "command4"; "-o"; "output files"] =
    ["command1 --flag 'arg'"; "command2"; "command3 -f -- args";
     "command4 -o 'output files'"].
Proof. vm_compute. repeat split. Qed.

(* ================================================================= *)
(** ** The order of binary64 values *)

Module FloatOrder.

Definition fle (x y : f64) : Prop := F64.leb x y = true.

(** The numeric value up to the sign of zero: [+0.0] and [-0.0] compare
    equal and are merged. *)
Definition canon (x : f64) : f64 :=
  match x with S754_zero _ => S754_zero false | _ => x end.

Ltac cmp_cases :=
  repeat match goal with
  | |- context [Z.compare ?a ?b] => destruct (Z.compare_spec a b)
  | H : context [Z.compare ?a ?b] |- _ => destruct (Z.compare_spec a b)
  | |- context [Pos.compare_cont Eq ?a ?b] =>
      change (Pos.compare_cont Eq a b) with (Pos.compare a b);
      destruct (Pos.compare_spec a b)
  | H : context [Pos.compare_cont Eq ?a ?b] |- _ =>
      change (Pos.compare_cont Eq a b) with (Pos.compare a b) in H;
      destruct (Pos.compare_spec a b)
  end; subst; simpl in *; try discriminate; try reflexivity; try lia.

Ltac float_cases :=
  unfold fle, F64.leb, F64.ltb, F64.eqb, F64.is_finite, canon,
    SFleb, SFltb, SFeqb, SFcompare in *;
  repeat match goal with
  | x : spec_float |- _ => destruct x
  | b : bool |- _ => destruct b
  end; simpl in *; try discriminate; try reflexivity; try congruence;
  cmp_cases.

Lemma leb_trans x y z :
  F64.leb x y = true -> F64.leb y z = true -> F64.leb x z = true.
Proof. intros; float_cases. Qed.

Lemma ltb_leb x y : F64.ltb x y = true -> F64.leb x y = true.
Proof. intros; float_cases. Qed.

Lemma ltb_leb_trans x y z :
  F64.ltb x y = true -> F64.leb y z = true -> F64.ltb x z = true.
Proof. intros; float_cases. Qed.

Lemma leb_ltb_trans x y z :
  F64.leb x y = true -> F64.ltb y z = true -> F64.ltb x z = true.
Proof. intros; float_cases. Qed.

Lemma ltb_not_leb x y : F64.ltb x y = true -> F64.leb y x = false.
Proof. intros; float_cases. Qed.

Lemma not_ltb_leb x y :
  F64.is_finite x = true -> F64.is_finite y = true ->
  F64.ltb x y = false -> F64.leb y x = true.
Proof. intros; float_cases. Qed.

Lemma leb_not_eqb_ltb x y :
  F64.leb x y = true -> F64.eqb x y = false -> F64.ltb x y = true.
Proof. intros; float_cases. Qed.

Lemma eqb_leb x y : F64.eqb x y = true -> F64.leb y x = true.
Proof. intros; float_cases. Qed.

Lemma leb_refl x : F64.is_finite x = true -> F64.leb x x = true.
Proof. intros; float_cases. Qed.

(** Values that compare equal both ways have the same numeric value. *)
Lemma leb_antisym_canon x y :
  F64.leb x y = true -> F64.leb y x = true -> canon x = canon y.
Proof. intros; float_cases. Qed.

Lemma leb_canon x y : F64.leb (canon x) (canon y) = F64.leb x y.
Proof. float_cases. Qed.

Lemma ltb_canon x y : F64.ltb (canon x) (canon y) = F64.ltb x y.
Proof. float_cases. Qed.

Lemma canon_idem x : canon (canon x) = canon x.
Proof. destruct x; reflexivity. Qed.

Lemma is_finite_canon x : F64.is_finite (canon x) = F64.is_finite x.
Proof. destruct x; reflexivity. Qed.

#[export] Instance fle_trans : Transitive fle.
Proof. intros x y z. apply leb_trans. Qed.

End FloatOrder.

(* ================================================================= *)
(** ** [bisect_right] and the sorted-sample invariant *)

Module Sorting.
Import FloatOrder.

Definition finite_all (l : list f64) : Prop := Forall (fun x => F64.is_finite x = true) l.

(** [r] is where [x] goes after its equals: everything before is [<= x],
    everything from [r] on is [> x]. *)
Definition bisect_ok (l : list f64) (x : f64) (r : nat) : Prop :=
  r <= length l /\
  (forall j, j < r -> fle (idx l j) x) /\
  (forall j, r <= j -> j < length l -> F64.ltb x (idx l j) = true).

Lemma idx_lookup l j a : l !! j = Some a -> idx l j = a.
Proof. intros H. unfold idx. rewrite nth_lookup, H. reflexivity. Qed.

Lemma idx_finite l j : finite_all l -> F64.is_finite (idx l j) = true.
Proof.
  intros Hf. unfold idx. rewrite nth_lookup.
  destruct (l !! j) as [a|] eqn:E; [|reflexivity].
  simpl. eapply (Forall_lookup_1 _ _ _ _ Hf E).
Qed.

Lemma sorted_idx_lt l i j :
  StronglySorted fle l -> i < j -> j < length l -> fle (idx l i) (idx l j).
Proof.
  intros Hs. revert i j. induction Hs as [|a l Hs IH Ha]; intros i j Hij Hj;
    simpl in *; [lia|].
  destruct i as [|i], j as [|j]; try lia.
  - unfold idx; simpl. rewrite Forall_forall in Ha. apply Ha, list_elem_of_In, nth_In. lia.
  - apply IH; lia.
Qed.

Lemma drop_cons_lookup (l rest : list f64) k y :
  drop k l = y :: rest -> l !! k = Some y /\ drop (S k) l = rest.
Proof.
  intros H. split.
  - rewrite <- (Nat.add_0_r k), <- lookup_drop, H. reflexivity.
  - replace (S k) with (k + 1) by lia. rewrite <- drop_drop, H. reflexivity.
Qed.

Lemma skip_equal_ok l x : forall rest k,
  drop k l = rest -> k <= length l ->
  let r := StatsRs.skip_equal x rest k in
  k <= r /\ r <= length l /\
  (forall j, k <= j -> j < r -> F64.eqb x (idx l j) = true) /\
  (r < length l -> F64.eqb x (idx l r) = false).
Proof.
  induction rest as [|y rest IH]; intros k Hd Hk; simpl.
  - assert (length l <= k).
    { pose proof (length_drop l k) as E. rewrite Hd in E. simpl in E. lia. }
    repeat split; try lia.
  - apply drop_cons_lookup in Hd as [Hy Hd].
    pose proof (lookup_lt_Some _ _ _ Hy) as Hlt.
    destruct (F64.eqb x y) eqn:Exy.
    + destruct (IH (S k) Hd ltac:(lia)) as (H1 & H2 & H3 & H4).
      repeat split; try lia; [|exact H4].
      intros j Hj1 Hj2. destruct (decide (j = k)) as [->|Hne].
      * rewrite (idx_lookup _ _ _ Hy). exact Exy.
      * apply H3; lia.
    + repeat split; try lia. intros. rewrite (idx_lookup _ _ _ Hy). exact Exy.
Qed.

Section Bisect.
Variable l : list f64.
Variable x : f64.
Hypothesis Hsorted : StronglySorted fle l.
Hypothesis Hfin : finite_all l.
Hypothesis Hx : F64.is_finite x = true.

Lemma bisect_right_go_ok : forall fuel lo hi,
    hi - lo < fuel -> lo <= hi -> hi <= length l ->
    (forall j, j < lo -> fle (idx l j) x) ->
    (forall j, hi <= j -> j < length l -> F64.ltb x (idx l j) = true) ->
    bisect_ok l x (StatsRs.bisect_right_go fuel l x lo hi).
  Proof.
    induction fuel as [|fuel IH]; intros lo hi Hf Hlh Hhl Hlo Hhi; [lia|].
    cbn [StatsRs.bisect_right_go]. destruct (hi <=? lo) eqn:E1.
    { apply Nat.leb_le in E1. assert (hi = lo) as -> by lia.
      repeat split; auto. }
    apply Nat.leb_gt in E1.
    destruct (hi + 7 <=? lo) eqn:E2; [apply Nat.leb_le in E2; lia|].
    assert ((hi - lo) / 2 < hi - lo) by (apply Nat.div_lt; lia).
    set (mid := lo + (hi - lo) / 2).
    assert (lo <= mid < hi) as Hmid by (unfold mid; lia).
    pose proof (idx_finite l mid Hfin) as Hmf.
    destruct (F64.ltb x (idx l mid)) eqn:E3.
    { apply IH; try lia; auto.
      intros j Hj1 Hj2. destruct (decide (j < hi)).
      - destruct (decide (j = mid)) as [->|]; [exact E3|].
        apply (ltb_leb_trans _ (idx l mid)); [exact E3|]. apply sorted_idx_lt; auto; lia.
      - apply Hhi; lia. }
    destruct (F64.ltb (idx l mid) x) eqn:E4.
    { apply IH; try lia; auto.
      intros j Hj. destruct (decide (j < lo)); [auto|].
      destruct (decide (j = mid)) as [->|]; [apply ltb_leb; exact E4|].
      apply (leb_trans _ (idx l mid)); [apply sorted_idx_lt; auto; lia|].
      apply ltb_leb; exact E4. }
    pose proof (not_ltb_leb _ _ Hx Hmf E3) as Hmx.
    pose proof (not_ltb_leb _ _ Hmf Hx E4) as Hxm.
    destruct (skip_equal_ok l x (drop (S mid) l) (S mid) eq_refl ltac:(lia))
      as (H1 & H2 & H3 & H4).
    set (r := StatsRs.skip_equal x (drop (S mid) l) (S mid)) in *.
    repeat split; auto.
    - intros j Hj. destruct (decide (j < mid)).
      + apply (leb_trans _ (idx l mid)); [apply sorted_idx_lt; auto; lia|exact Hmx].
      + destruct (decide (j = mid)) as [->|]; [exact Hmx|].
        apply eqb_leb, H3; lia.
    - intros j Hj1 Hj2.
      assert (Hxr : F64.leb x (idx l r) = true).
      { apply (leb_trans _ (idx l mid)); [exact Hxm|]. apply sorted_idx_lt; auto; lia. }
      pose proof (leb_not_eqb_ltb _ _ Hxr (H4 ltac:(lia))) as Hlt.
      destruct (decide (j = r)) as [->|]; [exact Hlt|].
      apply (ltb_leb_trans _ (idx l r)); [exact Hlt|]. apply sorted_idx_lt; auto; lia.
  Qed.

Lemma bisect_right_ok :
    bisect_ok l x (StatsRs.bisect_right l x 0 (length l)).
  Proof.
    apply bisect_right_go_ok; intros; lia.
  Qed.
End Bisect.
End Sorting.

(* ================================================================= *)
(** ** Invariants of [Stats] *)

Module StatsInv.
Import FloatOrder Sorting.

Lemma vec_insert_perm i x l : vec_insert i x l ≡ₚ x :: l.
Proof.
  unfold vec_insert. rewrite <- Permutation_middle, take_drop. reflexivity.
Qed.

Lemma vec_insert_sorted l x r :
  StronglySorted fle l -> bisect_ok l x r ->
  StronglySorted fle (vec_insert r x l).
Proof.
  intros Hs (Hr & Hlo & Hhi). unfold vec_insert.
  rewrite <- (take_drop r l) in Hs.
  apply StronglySorted_app_2.
  - intros a b Ha Hb. apply list_elem_of_lookup in Ha as [i Hi].
    pose proof (lookup_lt_Some _ _ _ Hi) as Hil. rewrite length_take in Hil.
    rewrite lookup_take_lt in Hi by lia.
    apply elem_of_cons in Hb as [->|Hb].
    + rewrite <- (idx_lookup _ _ _ Hi). apply Hlo. lia.
    + eapply StronglySorted_app_1_elem_of; [exact Hs| |exact Hb].
      apply list_elem_of_lookup. exists i. rewrite lookup_take_lt by lia. exact Hi.
  - eapply StronglySorted_app_1_l. exact Hs.
  - constructor; [eapply StronglySorted_app_1_r; exact Hs|].
    apply Forall_forall. intros b Hb. apply list_elem_of_lookup in Hb as [i Hi].
    rewrite lookup_drop in Hi. pose proof (lookup_lt_Some _ _ _ Hi).
    rewrite <- (idx_lookup _ _ _ Hi). apply ltb_leb, Hhi; lia.
Qed.

(** The invariant of the sample vector: finite values in ascending order. *)
Definition sorted_inv (l : list f64) : Prop := finite_all l /\ StronglySorted fle l.

Lemma insert_finite_inv l x :
  sorted_inv l -> sorted_inv (StatsRs.insert_finite l x).
Proof.
  intros [Hf Hs]. unfold StatsRs.insert_finite.
  destruct (F64.is_finite x) eqn:Hx; simpl; [|split; auto].
  pose proof (bisect_right_ok l x Hs Hf Hx) as Hok. split.
  - unfold finite_all. rewrite vec_insert_perm. constructor; auto.
  - apply vec_insert_sorted; auto.
Qed.

Lemma insert_finite_perm l x :
  StatsRs.insert_finite l x ≡ₚ filter (fun y => F64.is_finite y = true) [x] ++ l.
Proof.
  unfold StatsRs.insert_finite. rewrite filter_cons, filter_nil.
  destruct (decide (F64.is_finite x = true)) as [E|E]; simpl.
  - rewrite E. apply vec_insert_perm.
  - destruct (F64.is_finite x); [congruence|reflexivity].
Qed.

Lemma sort_only_finite_go data acc :
  sorted_inv acc ->
  sorted_inv (fold_left StatsRs.insert_finite data acc) /\
  fold_left StatsRs.insert_finite data acc
    ≡ₚ filter (fun y => F64.is_finite y = true) data ++ acc.
Proof.
  revert acc. induction data as [|x data IH]; intros acc Hacc; simpl; [auto|].
  destruct (IH _ (insert_finite_inv acc x Hacc)) as [H1 H2]. split; [exact H1|].
  rewrite H2, insert_finite_perm. rewrite !filter_cons, filter_nil.
  destruct (decide (F64.is_finite x = true)); simpl; [|reflexivity].
  rewrite <- Permutation_middle. reflexivity.
Qed.

Lemma sort_only_finite_ok data :
  sorted_inv (StatsRs.sort_only_finite data) /\
  StatsRs.sort_only_finite data ≡ₚ filter (fun y => F64.is_finite y = true) data.
Proof.
  unfold StatsRs.sort_only_finite.
  destruct (sort_only_finite_go data [] ltac:(split; constructor)) as [H1 H2].
  rewrite app_nil_r in H2. auto.
Qed.
End StatsInv.

(* ================================================================= *)
(** ** Every reachable [Stats] is [calc] of its samples *)

Module Reach.
Import FloatOrder Sorting StatsInv.

Definition fin (y : f64) : Prop := F64.is_finite y = true.
Definition nonfin (y : f64) : Prop := F64.is_finite y = false.

Lemma calc_same st st' :
  sorted_samples st = sorted_samples st' -> nan_count st = nan_count st' ->
  sorted_samples st <> [] -> calc st = calc st'.
Proof.
  destruct st, st'; simpl. intros -> -> Hne.
  destruct sorted_samples1; [congruence|reflexivity].
Qed.

Lemma of_sorted_sorted s n : sorted_samples (of_sorted s n) = s.
Proof. destruct s; reflexivity. Qed.

Lemma of_sorted_nan s n : nan_count (of_sorted s n) = n.
Proof. destruct s; reflexivity. Qed.

Lemma set_nan_count_of_sorted s n m : set_nan_count (of_sorted s n) m = of_sorted s m.
Proof. destruct s; reflexivity. Qed.

Lemma add_of_sorted s n x :
  add (of_sorted s n) x =
  of_sorted (StatsRs.insert_finite s x)
    (n + length (filter nonfin [x])).
Proof.
  unfold add, StatsRs.insert_finite, nonfin. rewrite filter_cons, filter_nil.
  destruct (F64.is_finite x) eqn:Hx; simpl.
  - rewrite Nat.add_0_r.
    apply calc_same; simpl; rewrite ?of_sorted_sorted, ?of_sorted_nan; auto.
    unfold vec_insert. destruct (take _ s); discriminate.
  - rewrite Nat.add_1_r, <- (set_nan_count_of_sorted s n (S n)).
    unfold set_nan_count. rewrite of_sorted_nan. reflexivity.
Qed.

Lemma fold_add_of_sorted adds : forall s n,
  fold_left add adds (of_sorted s n) =
  of_sorted (fold_left StatsRs.insert_finite adds s)
    (n + length (filter nonfin adds)).
Proof.
  induction adds as [|x adds IH]; intros s n; simpl.
  - rewrite Nat.add_0_r. reflexivity.
  - rewrite add_of_sorted, IH. f_equal.
    rewrite (filter_cons _ x adds). unfold nonfin.
    destruct (decide (F64.is_finite x = false)); simpl;
      rewrite ?filter_cons, ?filter_nil, ?decide_True, ?decide_False by auto;
      simpl; lia.
Qed.

Lemma length_filter_split (l : list f64) :
  length l = length (filter fin l) + length (filter nonfin l).
Proof.
  induction l as [|x l IH]; [reflexivity|].
  rewrite !filter_cons. unfold fin, nonfin in *.
  destruct (F64.is_finite x) eqn:Hx.
  - rewrite decide_True, decide_False by congruence. simpl. lia.
  - rewrite decide_False, decide_True by congruence. simpl. lia.
Qed.

Lemma new_of_sorted samples :
  new samples =
  of_sorted (StatsRs.sort_only_finite samples) (length (filter nonfin samples)).
Proof.
  unfold new, of_sorted. do 2 f_equal.
  destruct (sort_only_finite_ok samples) as [_ Hp].
  rewrite (Permutation_length Hp), (length_filter_split samples).
  unfold fin. lia.
Qed.

Lemma run_of_sorted samples adds :
  run samples adds =
  of_sorted (StatsRs.sort_only_finite (samples ++ adds))
    (length (filter nonfin (samples ++ adds))).
Proof.
  unfold run. rewrite new_of_sorted, fold_add_of_sorted.
  unfold StatsRs.sort_only_finite. rewrite fold_left_app, filter_app, length_app.
  reflexivity.
Qed.

Lemma insert_finite_nonfin l x :
  F64.is_finite x = false -> StatsRs.insert_finite l x = l.
Proof. intros Hx. unfold StatsRs.insert_finite. rewrite Hx. reflexivity. Qed.

Lemma sort_only_finite_filter_go data : forall acc,
  fold_left StatsRs.insert_finite (filter fin data) acc =
  fold_left StatsRs.insert_finite data acc.
Proof.
  induction data as [|x data IH]; intros acc; [reflexivity|].
  rewrite filter_cons. unfold fin in *.
  destruct (F64.is_finite x) eqn:Hx.
  - rewrite decide_True by reflexivity. simpl. apply IH.
  - rewrite decide_False by congruence. simpl.
    rewrite insert_finite_nonfin by exact Hx. apply IH.
Qed.

Lemma run_sorted_inv samples adds :
  sorted_inv (sorted_samples (run samples adds)) /\
  sorted_samples (run samples adds) ≡ₚ filter fin (samples ++ adds).
Proof.
  rewrite run_of_sorted, of_sorted_sorted. apply sort_only_finite_ok.
Qed.

End Reach.

(* ================================================================= *)
(** ** The fields [calc] computes *)

Module CalcFacts.
Import FloatOrder Sorting StatsInv Reach.

Lemma of_sorted_eqs s n : s <> [] ->
  let st := of_sorted s n in
  let count := length s in
  let median := idx s (count / 2) in
  let acc := fold_left (fun acc x =>
                (F64.add (fst acc) (powi2 (F64.sub x (mean st))),
                 F64.add (snd acc) (F64.abs (F64.sub x median)))) s (zero, zero) in
  let fast := F64.leb (lcl st) (first_or_zero s) && F64.leb (last_or_zero s) (ucl st) in
  sorted_samples st = s /\ nan_count st = n /\
  mean st = F64.div (sum s) (F64.of_nat count) /\
  mad st = F64.div (snd acc) (F64.of_nat count) /\
  stdev st = F64.sqrt (F64.div (fst acc) (F64.of_nat count)) /\
  lcl st = F64.sub median (F64.mul (F64.mul three coefficient) (mad st)) /\
  ucl st = F64.add median (F64.mul (F64.mul three coefficient) (mad st)) /\
  outlier_count st =
    (if fast then 0
     else fold_left (fun c x => if within (lcl st) (ucl st) x then c else S c) s 0) /\
  mean_excluding_outlier st =
    (if fast then mean st
     else F64.div
            (fold_left (fun c x => if within (lcl st) (ucl st) x then F64.add c x else c)
               s zero)
            (F64.of_nat (count - outlier_count st))) /\
  stdev_excluding_outlier st =
    (if fast then stdev st
     else F64.sqrt
            (F64.div
               (fold_left (fun c x =>
                  if within (lcl st) (ucl st) x
                  then F64.add c (powi2 (F64.sub x (mean_excluding_outlier st)))
                  else c) s zero)
               (F64.of_nat (count - outlier_count st)))).
Proof.
  intros Hne. destruct s as [|a s]; [congruence|].
  repeat split; reflexivity.
Qed.

Lemma of_sorted_nil n : of_sorted [] n = set_nan_count stats_default n.
Proof. reflexivity. Qed.

Lemma fold_count_filter (P : f64 -> bool) l k :
  fold_left (fun c x => if P x then c else S c) l k =
  k + length (filter (fun x => P x = false) l).
Proof.
  revert k. induction l as [|x l IH]; intros k; simpl; [lia|].
  rewrite IH, filter_cons.
  destruct (P x) eqn:E; [rewrite decide_False by congruence|rewrite decide_True by reflexivity];
    simpl; lia.
Qed.

Lemma fold_pair_snd (f g : f64 -> f64 -> f64) l a b :
  snd (fold_left (fun acc x => (f (fst acc) x, g (snd acc) x)) l (a, b)) =
  fold_left g l b.
Proof. revert a b. induction l as [|x l IH]; intros a b; simpl; auto. Qed.

Lemma fold_pair_fst (f g : f64 -> f64 -> f64) l a b :
  fst (fold_left (fun acc x => (f (fst acc) x, g (snd acc) x)) l (a, b)) =
  fold_left f l a.
Proof. revert a b. induction l as [|x l IH]; intros a b; simpl; auto. Qed.

Lemma calc_loop_fst m md l :
  fst (fold_left (fun acc x => (F64.add (fst acc) (powi2 (F64.sub x m)),
                                F64.add (snd acc) (F64.abs (F64.sub x md)))) l (zero, zero)) =
  fold_left (fun a x => F64.add a (powi2 (F64.sub x m))) l zero.
Proof.
  apply (fold_pair_fst (fun a x => F64.add a (powi2 (F64.sub x m)))
                       (fun a x => F64.add a (F64.abs (F64.sub x md)))).
Qed.

Lemma calc_loop_snd m md l :
  snd (fold_left (fun acc x => (F64.add (fst acc) (powi2 (F64.sub x m)),
                                F64.add (snd acc) (F64.abs (F64.sub x md)))) l (zero, zero)) =
  fold_left (fun a x => F64.add a (F64.abs (F64.sub x md))) l zero.
Proof.
  apply (fold_pair_snd (fun a x => F64.add a (powi2 (F64.sub x m)))
                       (fun a x => F64.add a (F64.abs (F64.sub x md)))).
Qed.

Lemma last_or_zero_elem a s : last_or_zero (a :: s) ∈ a :: s.
Proof.
  unfold last_or_zero. destruct (last (a :: s)) as [y|] eqn:E.
  - simpl. by apply last_Some_elem_of.
  - apply last_None in E. discriminate.
Qed.

Lemma sorted_le_last a s x :
  StronglySorted fle (a :: s) -> finite_all (a :: s) -> x ∈ a :: s ->
  fle x (last_or_zero (a :: s)).
Proof.
  revert a x. induction s as [|b s IH]; intros a x Hs Hf Hx.
  - apply list_elem_of_singleton in Hx as ->. unfold last_or_zero; simpl.
    apply leb_refl. inversion Hf; auto.
  - replace (last_or_zero (a :: b :: s)) with (last_or_zero (b :: s)) by reflexivity.
    inversion Hs as [|? ? Hs' Ha]; subst. inversion Hf; subst.
    apply elem_of_cons in Hx as [->|Hx]; [|apply IH; auto].
    apply (leb_trans _ b).
    + rewrite Forall_forall in Ha. apply Ha. left.
    + apply IH; auto. left.
Qed.

(** Every sample is within the bounds once [outlier_count] is zero, on the
    fast path because the samples lie between [min] and [max]. *)
Lemma zero_outliers_within s n :
  sorted_inv s -> s <> [] -> outlier_count (of_sorted s n) = 0 ->
  Forall (fun x => within (lcl (of_sorted s n)) (ucl (of_sorted s n)) x = true) s.
Proof.
  intros [Hf Hs] Hne.
  destruct (of_sorted_eqs s n Hne) as (_ & _ & _ & _ & _ & _ & _ & Hout & _).
  set (st := of_sorted s n) in *. rewrite Hout.
  destruct (F64.leb (lcl st) (first_or_zero s) && F64.leb (last_or_zero s) (ucl st))
    eqn:Efast; intros H0.
  - apply andb_true_iff in Efast as [Hlo Hhi].
    destruct s as [|a s]; [congruence|]. simpl in Hlo.
    apply Forall_forall. intros x Hx. unfold within. apply andb_true_iff. split.
    + apply elem_of_cons in Hx as [->|Hx]; [exact Hlo|].
      apply (leb_trans _ a); [exact Hlo|].
      inversion Hs as [|? ? _ Ha]; subst. rewrite Forall_forall in Ha. apply Ha, Hx.
    + apply (leb_trans _ (last_or_zero (a :: s))); [|exact Hhi].
      apply sorted_le_last; auto.
  - rewrite fold_count_filter in H0. simpl in H0.
    apply Forall_forall. intros x Hx.
    destruct (within (lcl st) (ucl st) x) eqn:Ew; [reflexivity|].
    assert (x ∈ filter (fun y => within (lcl st) (ucl st) y = false) s)
      by (apply list_elem_of_filter; auto).
    destruct (filter _ s); [by apply not_elem_of_nil in H|simpl in H0; lia].
Qed.

Lemma filter_all_true (P : f64 -> bool) l :
  Forall (fun x => P x = true) l -> List.filter P l = l.
Proof.
  induction 1 as [|x l Hx _ IH]; [reflexivity|].
  simpl. rewrite Hx. f_equal. exact IH.
Qed.

End CalcFacts.

(* ================================================================= *)
(** ** Claims on [Stats] *)

Module StatsClaims.
Import FloatOrder Sorting StatsInv Reach CalcFacts.

Lemma fast_path_of_all_within s n :
  s <> [] ->
  Forall (fun x => within (lcl (of_sorted s n)) (ucl (of_sorted s n)) x = true) s ->
  F64.leb (lcl (of_sorted s n)) (first_or_zero s) &&
  F64.leb (last_or_zero s) (ucl (of_sorted s n)) = true.
Proof.
  intros Hne Hall. destruct s as [|a s]; [congruence|].
  rewrite Forall_forall in Hall.
  pose proof (Hall a ltac:(left)) as Ha.
  pose proof (Hall _ (last_or_zero_elem a s)) as Hl.
  unfold within in Ha, Hl. apply andb_true_iff in Ha as [Ha _], Hl as [_ Hl].
  change (first_or_zero (a :: s)) with a. rewrite Ha, Hl. reflexivity.
Qed.

Lemma find_head (f : f64 -> bool) a l : f a = true -> List.find f (a :: l) = Some a.
Proof. intros H. simpl. rewrite H. reflexivity. Qed.

(** C1. When no sample of a [Stats] built by [Stats::new] and [add] calls
    lies outside the closed interval [[lcl, ucl]], [mean_excluding_outlier]
    and [stdev_excluding_outlier] are the very same binary64 values as
    [mean] and [stdev]. *)
Theorem stats_no_outlier_exact (samples adds : list f64) :
  Forall (fun x => within (lcl (run samples adds)) (ucl (run samples adds)) x = true)
    (sorted_samples (run samples adds)) ->
  mean_excluding_outlier (run samples adds) = mean (run samples adds) /\
  stdev_excluding_outlier (run samples adds) = stdev (run samples adds).
Proof.
  rewrite run_of_sorted.
  generalize (StatsRs.sort_only_finite (samples ++ adds)) as s.
  generalize (length (filter nonfin (samples ++ adds))) as n.
  intros n s Hall. rewrite of_sorted_sorted in Hall.
  destruct (decide (s = [])) as [->|Hne]; [split; reflexivity|].
  destruct (of_sorted_eqs s n Hne) as (_ & _ & _ & _ & _ & _ & _ & _ & Hm & Hs).
  rewrite (fast_path_of_all_within s n Hne Hall) in Hm, Hs. auto.
Qed.

(** C2. When [outlier_count] is zero, [min_excluding_outlier],
    [max_excluding_outlier] and [median_excluding_outlier] return exactly
    [min], [max] and [median]. *)
Theorem stats_zero_outliers_accessors (samples adds : list f64) :
  outlier_count (run samples adds) = 0 ->
  min_excluding_outlier (run samples adds) = min (run samples adds) /\
  max_excluding_outlier (run samples adds) = max (run samples adds) /\
  median_excluding_outlier (run samples adds) = median (run samples adds).
Proof.
  pose proof (run_sorted_inv samples adds) as [Hinv _].
  rewrite run_of_sorted in *.
  revert Hinv.
  generalize (StatsRs.sort_only_finite (samples ++ adds)) as s.
  generalize (length (filter nonfin (samples ++ adds))) as n.
  intros n s Hinv H0. rewrite of_sorted_sorted in Hinv.
  destruct (decide (s = [])) as [->|Hne]; [repeat split; reflexivity|].
  pose proof (zero_outliers_within s n Hinv Hne H0) as Hall.
  set (st := of_sorted s n) in *.
  unfold min_excluding_outlier, max_excluding_outlier, median_excluding_outlier,
    min, max, median.
  subst st. rewrite of_sorted_sorted.
  repeat split.
  - destruct s as [|a s]; [congruence|].
    rewrite Forall_forall in Hall. pose proof (Hall a ltac:(left)) as Ha.
    unfold within in Ha. apply andb_true_iff in Ha as [Ha _].
    rewrite (find_head (fun x => F64.leb (lcl (of_sorted (a :: s) n)) x) a s Ha).
    reflexivity.
  - rewrite (filter_all_true (fun x => F64.leb x (ucl (of_sorted s n)))).
    + reflexivity.
    + eapply Forall_impl; [exact Hall|]. intros x Hx.
      unfold within in Hx. apply andb_true_iff in Hx as [_ Hx]. exact Hx.
  - rewrite (filter_all_true (within (lcl (of_sorted s n)) (ucl (of_sorted s n))) s Hall).
    reflexivity.
Qed.

(** C5. For a [Stats] with at least one sample, [lcl] and [ucl] are
    [median - 3 * 1.4826 * mad] and [median + 3 * 1.4826 * mad], [mad] is
    the mean of the absolute deviations from the median, and
    [outlier_count] is the number of samples that are not in [[lcl, ucl]]
    (a sample equal to a bound is not counted). *)
Theorem stats_hampel_bounds (samples adds : list f64) :
  let st := run samples adds in
  sorted_samples st <> [] ->
  lcl st = F64.sub (median st) (F64.mul (F64.mul three coefficient) (mad st)) /\
  ucl st = F64.add (median st) (F64.mul (F64.mul three coefficient) (mad st)) /\
  mad st = F64.div
             (fold_left (fun a x => F64.add a (F64.abs (F64.sub x (median st))))
                (sorted_samples st) zero)
             (F64.of_nat (count st)) /\
  outlier_count st =
    length (filter (fun x => within (lcl st) (ucl st) x = false) (sorted_samples st)).
Proof.
  intros st. subst st.
  pose proof (run_sorted_inv samples adds) as [Hinv _].
  rewrite run_of_sorted in *. revert Hinv.
  generalize (StatsRs.sort_only_finite (samples ++ adds)) as s.
  generalize (length (filter nonfin (samples ++ adds))) as n.
  intros n s Hinv Hne. rewrite of_sorted_sorted in Hinv, Hne.
  destruct (of_sorted_eqs s n Hne)
    as (Hss & _ & _ & Hmad & _ & Hlcl & Hucl & Hout & _).
  assert (Hmed : median (of_sorted s n) = idx s (length s / 2)).
  { unfold median, idx. rewrite Hss, nth_lookup. reflexivity. }
  unfold count. rewrite Hss, Hmed.
  split; [exact Hlcl|]. split; [exact Hucl|]. split.
  - rewrite Hmad, calc_loop_snd. reflexivity.
  - destruct (decide (outlier_count (of_sorted s n) = 0)) as [H0|H0].
    + rewrite H0. pose proof (zero_outliers_within s n Hinv Hne H0) as Hall.
      destruct (filter _ s) as [|y l] eqn:E; [reflexivity|].
      assert (y ∈ filter (fun x => within (lcl (of_sorted s n)) (ucl (of_sorted s n)) x
                                   = false) s) as Hy by (rewrite E; left).
      apply list_elem_of_filter in Hy as [Hy1 Hy2].
      rewrite Forall_forall in Hall. rewrite (Hall y Hy2) in Hy1. discriminate.
    + rewrite Hout in *.
      destruct (_ && _); [congruence|].
      rewrite fold_count_filter. reflexivity.
Qed.

(** C6. [median()] is the element at index [count / 2] of the samples,
    which are the finite inputs in ascending order; with no sample,
    [median()], [min()] and [max()] are [0.0]. *)
Theorem stats_median_upper_and_empty (samples adds : list f64) :
  let st := run samples adds in
  StronglySorted fle (sorted_samples st) /\
  sorted_samples st ≡ₚ filter fin (samples ++ adds) /\
  (0 < count st -> sorted_samples st !! (count st / 2) = Some (median st)) /\
  (count st = 0 -> median st = zero /\ min st = zero /\ max st = zero).
Proof.
  intros st. subst st.
  destruct (run_sorted_inv samples adds) as [[_ Hs] Hp].
  split; [exact Hs|]. split; [exact Hp|].
  unfold count, median, min, max.
  destruct (sorted_samples (run samples adds)) as [|a s] eqn:E.
  - split; [simpl; lia|]. intros _. repeat split.
  - split; [|simpl; lia]. intros _.
    destruct (lookup_lt_is_Some_2 (a :: s) (length (a :: s) / 2)) as [y Hy].
    + apply Nat.div_lt; simpl; lia.
    + rewrite Hy. reflexivity.
Qed.

(** C8. After [Stats::new] and any sequence of [add] calls, the sample
    vector holds only finite values in ascending order (a permutation of
    the finite inputs), [nan_count] is the number of non-finite inputs,
    and every other field is what the same calls give with the non-finite
    inputs left out. *)
Theorem stats_finite_sorted_invariant (samples adds : list f64) :
  let st := run samples adds in
  finite_all (sorted_samples st) /\
  StronglySorted fle (sorted_samples st) /\
  sorted_samples st ≡ₚ filter fin (samples ++ adds) /\
  nan_count st = length (filter nonfin (samples ++ adds)) /\
  st = set_nan_count (run (filter fin samples) (filter fin adds)) (nan_count st).
Proof.
  intros st. subst st.
  destruct (run_sorted_inv samples adds) as [[Hf Hs] Hp].
  split; [exact Hf|]. split; [exact Hs|]. split; [exact Hp|].
  assert (Hn : nan_count (run samples adds) = length (filter nonfin (samples ++ adds))).
  { rewrite run_of_sorted, of_sorted_nan. reflexivity. }
  split; [exact Hn|].
  rewrite Hn, !run_of_sorted, set_nan_count_of_sorted, <- filter_app.
  unfold StatsRs.sort_only_finite. rewrite sort_only_finite_filter_go. reflexivity.
Qed.

End StatsClaims.

(* ================================================================= *)
(** ** Order independence *)

Module Congruence.
Import FloatOrder Sorting StatsInv Reach CalcFacts.

(** [R x y]: [x] and [y] are the same value up to the sign of a zero. *)
Definition R (x y : f64) : Prop := canon x = canon y.

Ltac canon_inv :=
  unfold R in *;
  repeat match goal with
  | H : canon ?x = canon ?y |- _ =>
      destruct x, y; simpl in H; try discriminate H;
      try (injection H; intros; subst); clear H
  end;
  repeat match goal with b : bool |- _ => destruct b end; reflexivity.

Lemma add_R x x' y y' : R x x' -> R y y' -> R (F64.add x y) (F64.add x' y').
Proof. intros. canon_inv. Qed.
Lemma sub_R x x' y y' : R x x' -> R y y' -> R (F64.sub x y) (F64.sub x' y').
Proof. intros. canon_inv. Qed.
Lemma mul_R x x' y y' : R x x' -> R y y' -> R (F64.mul x y) (F64.mul x' y').
Proof. intros. canon_inv. Qed.
Lemma div_R x x' y : R x x' -> R (F64.div x y) (F64.div x' y).
Proof. intros. destruct y; canon_inv. Qed.
Lemma sqrt_R x x' : R x x' -> R (F64.sqrt x) (F64.sqrt x').
Proof. intros. canon_inv. Qed.
Lemma abs_R x x' : R x x' -> R (F64.abs x) (F64.abs x').
Proof. intros. canon_inv. Qed.
Lemma leb_R x x' y y' : R x x' -> R y y' -> F64.leb x y = F64.leb x' y'.
Proof. unfold R. intros H1 H2. rewrite <- leb_canon, H1, H2, leb_canon. reflexivity. Qed.
Lemma R_refl x : R x x.
Proof. reflexivity. Qed.

Lemma R_num_eq x y : R x y -> num_eq x y.
Proof. unfold R. destruct x, y; simpl; intros H; try exact I; try discriminate; congruence. Qed.

Lemma fold_R {A} (RA : A -> A -> Prop) (f1 f2 : A -> f64 -> A) (l1 l2 : list f64) a1 a2 :
  Forall2 R l1 l2 -> RA a1 a2 ->
  (forall a a' x x', RA a a' -> R x x' -> RA (f1 a x) (f2 a' x')) ->
  RA (fold_left f1 l1 a1) (fold_left f2 l2 a2).
Proof.
  intros Hl. revert a1 a2. induction Hl; intros a1 a2 Ha Hf; simpl; auto.
Qed.

Lemma lookup_R l1 l2 i :
  Forall2 R l1 l2 -> R (default zero (l1 !! i)) (default zero (l2 !! i)).
Proof.
  intros Hl. revert i. induction Hl as [|x y l1 l2 Hxy Hl IH]; intros i; [reflexivity|].
  destruct i; simpl; auto.
Qed.

Lemma idx_R l1 l2 i : Forall2 R l1 l2 -> R (idx l1 i) (idx l2 i).
Proof. intros. unfold idx. rewrite !nth_lookup. apply lookup_R; auto. Qed.

Lemma sorted_canon l : StronglySorted fle l -> StronglySorted fle (map canon l).
Proof.
  induction 1 as [|a l _ IH Ha]; simpl; constructor; auto.
  apply Forall_forall. intros y Hy. apply list_elem_of_In, in_map_iff in Hy as [x [<- Hx]].
  unfold fle. rewrite leb_canon. rewrite Forall_forall in Ha.
  apply Ha, list_elem_of_In, Hx.
Qed.

Lemma map_canon_R l1 l2 : map canon l1 = map canon l2 -> Forall2 R l1 l2.
Proof.
  revert l2. induction l1 as [|x l1 IH]; intros [|y l2] H; simpl in H;
    try discriminate; constructor; injection H; auto.
Qed.

(** Two ascending arrangements of the same samples differ at most in the
    sign of zeros. *)
Lemma sorted_perm_R l1 l2 :
  StronglySorted fle l1 -> StronglySorted fle l2 -> l1 ≡ₚ l2 -> Forall2 R l1 l2.
Proof.
  intros H1 H2 Hp. apply map_canon_R.
  apply (StronglySorted_unique_strong fle); [| apply sorted_canon; auto
                                             | apply sorted_canon; auto
                                             | apply Permutation_map; auto].
  intros x1 x2 Hx1 Hx2 H12 H21.
  apply list_elem_of_In, in_map_iff in Hx1 as [y1 [<- _]].
  apply list_elem_of_In, in_map_iff in Hx2 as [y2 [<- _]].
  rewrite <- (canon_idem y1), <- (canon_idem y2). apply leb_antisym_canon; auto.
Qed.

Lemma of_sorted_R s1 s2 n1 n2 :
  Forall2 R s1 s2 ->
  let st1 := of_sorted s1 n1 in let st2 := of_sorted s2 n2 in
  R (mean st1) (mean st2) /\ R (stdev st1) (stdev st2) /\
  R (median st1) (median st2) /\ R (lcl st1) (lcl st2) /\ R (ucl st1) (ucl st2).
Proof.
  intros Hs st1 st2. subst st1 st2.
  destruct s1 as [|a1 s1]; [inversion Hs; subst; repeat split|].
  assert (Hne1 : a1 :: s1 <> []) by discriminate.
  destruct s2 as [|a2 s2]; [inversion Hs|].
  assert (Hne2 : a2 :: s2 <> []) by discriminate.
  pose proof (Forall2_length _ _ _ Hs) as Hlen.
  destruct (of_sorted_eqs _ n1 Hne1) as (Hss1 & _ & Hm1 & Hmad1 & Hsd1 & Hl1 & Hu1 & _).
  destruct (of_sorted_eqs _ n2 Hne2) as (Hss2 & _ & Hm2 & Hmad2 & Hsd2 & Hl2 & Hu2 & _).
  set (st1 := of_sorted (a1 :: s1) n1) in *.
  set (st2 := of_sorted (a2 :: s2) n2) in *.
  assert (Hmed : R (idx (a1 :: s1) (length (a2 :: s2) / 2))
                   (idx (a2 :: s2) (length (a2 :: s2) / 2))).
  { apply idx_R; auto. }
  assert (Hmean : R (mean st1) (mean st2)).
  { rewrite Hm1, Hm2, Hlen. apply div_R. unfold sum.
    apply (fold_R R); auto using R_refl, add_R. }
  assert (Hmad : R (mad st1) (mad st2)).
  { rewrite Hmad1, Hmad2, Hlen, !calc_loop_snd. apply div_R.
    apply (fold_R R); auto using R_refl.
    intros. apply add_R; auto. apply abs_R, sub_R; auto. }
  assert (Hk : R (F64.mul (F64.mul three coefficient) (mad st1))
                 (F64.mul (F64.mul three coefficient) (mad st2))).
  { apply mul_R; auto using R_refl. }
  split; [exact Hmean|]. split.
  { rewrite Hsd1, Hsd2, Hlen, !calc_loop_fst. apply sqrt_R, div_R.
    apply (fold_R R); auto using R_refl.
    intros. apply add_R; auto. unfold powi2. apply mul_R; apply sub_R; auto. }
  split.
  { unfold median. rewrite Hss1, Hss2, Hlen. apply lookup_R; auto. }
  split.
  - rewrite Hl1, Hl2, Hlen. apply sub_R; auto.
  - rewrite Hu1, Hu2, Hlen. apply add_R; auto.
Qed.

End Congruence.

(* ------------------------------------------------------------------ *)
(** * Order independence of [Stats] *)

Module OrderClaims.
Import FloatOrder Sorting StatsInv Reach Congruence.

(** C9: building [Stats] with [Stats::new] followed by any sequence of
    [add] calls depends only on the multiset of all samples supplied: two
    runs over permuted inputs agree on mean, stdev, median, lcl and ucl as
    numbers (the values are equal, a zero may differ only in its sign). *)
Theorem stats_order_independent (samples1 adds1 samples2 adds2 : list f64) :
  samples1 ++ adds1 ≡ₚ samples2 ++ adds2 ->
  let st1 := run samples1 adds1 in
  let st2 := run samples2 adds2 in
  num_eq (mean st1) (mean st2) /\ num_eq (stdev st1) (stdev st2) /\
  num_eq (median st1) (median st2) /\
  num_eq (lcl st1) (lcl st2) /\ num_eq (ucl st1) (ucl st2).
Proof.
  intros Hp.
  destruct (run_sorted_inv samples1 adds1) as [[_ Hsort1] Hperm1].
  destruct (run_sorted_inv samples2 adds2) as [[_ Hsort2] Hperm2].
  assert (HR : Forall2 R (sorted_samples (run samples1 adds1))
                         (sorted_samples (run samples2 adds2))).
  { apply sorted_perm_R; auto. rewrite Hperm1, Hperm2. by apply filter_Permutation. }
  cbv zeta. rewrite (run_of_sorted samples1 adds1), (run_of_sorted samples2 adds2) in *.
  rewrite !of_sorted_sorted in HR.
  destruct (of_sorted_R _ _
              (length (filter nonfin (samples1 ++ adds1)))
              (length (filter nonfin (samples2 ++ adds2))) HR)
    as (H1 & H2 & H3 & H4 & H5).
  repeat split; apply R_num_eq; assumption.
Qed.

Lemma stats_order_independent_witness :
  let st1 := run [lit 3.0; lit 2.9] [lit 3.1; nan; lit 2.95] in
  let st2 := run [lit 3.1; nan; lit 2.95] [lit 3.0; lit 2.9] in
  num_eq (mean st1) (mean st2) /\ num_eq (stdev st1) (stdev st2) /\
  num_eq (median st1) (median st2) /\
  num_eq (lcl st1) (lcl st2) /\ num_eq (ucl st1) (ucl st2).
Proof.
  apply (stats_order_independent [lit 3.0; lit 2.9] [lit 3.1; nan; lit 2.95]
           [lit 3.1; nan; lit 2.95] [lit 3.0; lit 2.9]).
  apply Permutation_app_comm.
Defined.

(** The agreement is numeric, not bitwise: the two zeros are kept in
    insertion order, so the median's sign follows the order of the calls. *)
Example order_zero_sign :
  median (run [zero; neg_zero] []) = neg_zero /\ median (run [neg_zero; zero] []) = zero.
Proof. vm_compute. split; reflexivity. Qed.

End OrderClaims.

(* ------------------------------------------------------------------ *)
(** * Witnesses of the [Stats] theorems at the unit test's samples *)

Module StatsWitnesses.
Import FloatOrder Reach StatsClaims.

Lemma stats_no_outlier_exact_witness :
  mean_excluding_outlier (run test_normal []) = mean (run test_normal []) /\
  stdev_excluding_outlier (run test_normal []) = stdev (run test_normal []).
Proof.
  apply (stats_no_outlier_exact test_normal []).
  apply List.Forall_forall, forallb_forall. vm_compute. reflexivity.
Defined.

Lemma stats_zero_outliers_accessors_witness :
  min_excluding_outlier (run test_normal []) = min (run test_normal []) /\
  max_excluding_outlier (run test_normal []) = max (run test_normal []) /\
  median_excluding_outlier (run test_normal []) = median (run test_normal []).
Proof.
  apply (stats_zero_outliers_accessors test_normal []).
  vm_compute. reflexivity.
Defined.

Lemma stats_hampel_bounds_witness :
  outlier_count (run test_outlier [infinity]) =
    length (filter (fun x => within (lcl (run test_outlier [infinity]))
                               (ucl (run test_outlier [infinity])) x = false)
              (sorted_samples (run test_outlier [infinity]))).
Proof.
  refine (proj2 (proj2 (proj2 (stats_hampel_bounds test_outlier [infinity] _)))).
  vm_compute. congruence.
Defined.

Lemma stats_median_upper_and_empty_witness :
  sorted_samples (run test_normal [lit 3.2]) !! (count (run test_normal [lit 3.2]) / 2) =
    Some (median (run test_normal [lit 3.2])).
Proof.
  refine (proj1 (proj2 (proj2 (stats_median_upper_and_empty test_normal [lit 3.2]))) _).
  vm_compute. lia.
Defined.

End StatsWitnesses.

(* ------------------------------------------------------------------ *)
(** * [Mean::new] of [mean.rs] *)

Module MeanClaims.
Import FloatOrder.

Lemma ltb_irrefl_finite x : F64.is_finite x = true -> F64.ltb x x = false.
Proof.
  intros Hx. destruct (F64.ltb x x) eqn:E; [|reflexivity].
  apply ltb_not_leb in E. rewrite leb_refl in E; auto.
Qed.

(** C10. [Mean::new] is not total: for every finite [x], [Mean::new(vec![x, x])]
    panics, because the [bisect_right] of [mean.rs] reads [sorted[index]]
    with [index == sorted.len()] when the inserted value equals the last
    element. [Stats::new], whose loop checks [index < sorted.len()] first,
    sorts the same input. *)
Theorem mean_new_panics_on_duplicate (x : f64) :
  F64.is_finite x = true ->
  MeanRs.Mean_new [x; x] = None /\ sorted_samples (new [x; x]) = [x; x].
Proof.
  intros Hx. pose proof (ltb_irrefl_finite x Hx) as Hlt.
  assert (Hsort : StatsRs.sort_only_finite [x; x] = [x; x]).
  { unfold StatsRs.sort_only_finite. cbn [fold_left].
    unfold StatsRs.insert_finite. rewrite Hx. cbn.
    unfold StatsRs.bisect_right. cbn. rewrite Hlt. cbn.
    reflexivity. }
  split.
  - unfold MeanRs.Mean_new, MeanRs.sort_only_finite. cbn [fold_left].
    unfold MeanRs.insert_finite. rewrite Hx. cbn.
    unfold MeanRs.bisect_right. cbn. rewrite Hlt. reflexivity.
  - unfold new. rewrite Hsort. reflexivity.
Qed.

Lemma mean_new_panics_on_duplicate_witness :
  MeanRs.Mean_new [lit 1.0; lit 1.0] = None /\
  sorted_samples (new [lit 1.0; lit 1.0]) = [lit 1.0; lit 1.0].
Proof. apply (mean_new_panics_on_duplicate (lit 1.0)). vm_compute. reflexivity. Defined.

(** [Mean::new(vec![1.0, 1.0])] panics. *)
Example mean_new_panics_1_1 : MeanRs.Mean_new [lit 1.0; lit 1.0] = None.
Proof. vm_compute. reflexivity. Qed.

End MeanClaims.

(* ------------------------------------------------------------------ *)
(** * [TimeCmd::get_report] and the GNU time parser *)

Module CmdClaims.
Import Cmd.

Lemma report_get_insert k v m : report_get k (report_insert k v m) = Some v.
Proof.
  induction m as [|[k' v'] m IH]; simpl.
  - by rewrite decide_True.
  - destruct (decide (k = k')) as [->|Hne]; simpl.
    + by rewrite decide_True.
    + by rewrite decide_False.
Qed.

(** Every report [get_report] returns holds an [ExitStatus] entry, and the
    one it caches too. *)
Definition report_has_exit_status (m : Report) : Prop := report_get ExitStatus m <> None.

Definition cache_ok (tc : TimeCmd) : Prop :=
  forall r, meas_report tc = Some r -> report_has_exit_status r.

Lemma get_report_fresh tc :
  finished (process tc) = true -> meas_report tc = None ->
  let m := parse_meas_items tc (stderr_pipe (process tc)) in
  fst (get_report tc) =
    if report_is_empty m then Err (ParseError "time")
    else Ok (match report_get ExitStatus m with
             | Some _ => m
             | None => report_insert ExitStatus (exit_code_f64 (process tc)) m
             end).
Proof.
  intros Hf Hr m. unfold get_report. rewrite Hf, Hr. simpl.
  subst m. destruct (report_is_empty _); [reflexivity|].
  destruct (report_get ExitStatus _); reflexivity.
Qed.

Lemma get_report_ok tc r :
  cache_ok tc -> fst (get_report tc) = Ok r -> report_has_exit_status r.
Proof.
  intros Hc. unfold get_report.
  destruct (finished (process tc)); simpl; [|discriminate].
  destruct (meas_report tc) as [r'|] eqn:E; simpl.
  - intros [= <-]. by apply Hc.
  - destruct (report_is_empty _); simpl; [discriminate|].
    unfold report_has_exit_status.
    destruct (report_get ExitStatus _) as [v|] eqn:Eg; intros [= <-].
    + by rewrite Eg.
    + by rewrite report_get_insert.
Qed.

Lemma get_report_cache_ok tc : cache_ok tc -> cache_ok (snd (get_report tc)).
Proof.
  intros Hc. unfold get_report.
  destruct (finished (process tc)); simpl; [|exact Hc].
  destruct (meas_report tc) as [r'|] eqn:E; simpl; [exact Hc|].
  destruct (report_is_empty _); simpl.
  - intros r. cbn. rewrite E. discriminate.
  - intros r. cbn. intros [= <-]. unfold report_has_exit_status.
    destruct (report_get ExitStatus (parse_meas_items tc _)) as [v|] eqn:Eg.
    + by rewrite Eg.
    + by rewrite report_get_insert.
Qed.

Lemma reachable_cache_ok tc : reachable tc -> cache_ok tc.
Proof.
  induction 1 as [spawned parse tc Hnew|tc p _ IH|tc _ IH|tc spawned _ IH|tc _ IH].
  - destruct spawned; simpl in Hnew; [|discriminate].
    injection Hnew as <-. intros r; discriminate.
  - exact IH.
  - unfold get_ready_status.
    destruct (ready_status_eqb _ _ && _); simpl; [|exact IH].
    destruct (report_is_empty _); exact IH.
  - unfold execute. destruct (negb _); simpl; [exact IH|].
    destruct spawned; intros r; discriminate.
  - by apply get_report_cache_ok.
Qed.

(** C7. For every state a [TimeCmd] reaches: [get_report] fails with
    [NotFinished] while the child runs; with no cached report, it fails
    with [ParseError] when the parser finds no entry in the diagnostic
    stream; every report it returns has an [ExitStatus] entry; and a fresh
    report is the parsed one, with [ExitStatus] added from the child's exit
    code ([0] when there is none) exactly when the parser gave none. *)
Theorem get_report_contract tc :
  reachable tc ->
  (finished (process tc) = false -> fst (get_report tc) = Err NotFinished) /\
  (finished (process tc) = true -> meas_report tc = None ->
     parse_meas_items tc (stderr_pipe (process tc)) = [] ->
     fst (get_report tc) = Err (ParseError "time")) /\
  (forall r, fst (get_report tc) = Ok r -> report_get ExitStatus r <> None) /\
  (finished (process tc) = true -> meas_report tc = None ->
     let m := parse_meas_items tc (stderr_pipe (process tc)) in
     m <> [] ->
     fst (get_report tc) =
       Ok (match report_get ExitStatus m with
           | Some _ => m
           | None => report_insert ExitStatus (exit_code_f64 (process tc)) m
           end)).
Proof.
  intros Hreach. split; [|split; [|split]].
  - intros Hf. unfold get_report. rewrite Hf. reflexivity.
  - intros Hf Hr Hm. rewrite get_report_fresh; auto. rewrite Hm. reflexivity.
  - intros r. apply get_report_ok, reachable_cache_ok, Hreach.
  - intros Hf Hr m Hm. rewrite get_report_fresh; auto. fold m.
    destruct m; [congruence|]. reflexivity.
Qed.

Definition demo_process : Process :=
  mkProcess true [("User time (seconds)", lit 0.01); ("Elapsed (wall clock) time (h:mm:ss or m:ss)", lit 0.02)] (Some 0%Z).

Definition demo_timecmd : TimeCmd :=
  set_process (mkTimeCmd (mkProcess false [] None) Checking gnu_parse None) demo_process.

Lemma get_report_contract_witness :
  fst (get_report demo_timecmd) =
    Ok (report_insert ExitStatus (exit_code_f64 demo_process)
          (gnu_parse (stderr_pipe demo_process))).
Proof.
  refine (proj2 (proj2 (proj2 (get_report_contract demo_timecmd
            (reach_process _ _ (reach_new (Some (mkProcess false [] None)) gnu_parse _ eq_refl)))))
            eq_refl eq_refl _).
  vm_compute. congruence.
Defined.

(** C3 (corrected). In the GNU parser a [Command being timed] capture leaves
    the report unchanged, but an [Exit status] capture records its value
    under [ExitStatus]; [get_report] keeps that parsed value and takes the
    OS exit code only when the parsed report has no [ExitStatus] entry. *)
Theorem gnu_exit_status_from_parse :
  (forall m v, gnu_step m ("Command being timed", v) = m) /\
  (forall m v, report_get ExitStatus (gnu_step m ("Exit status", v)) = Some v) /\
  (forall tc, finished (process tc) = true -> meas_report tc = None ->
     parse_meas_items tc = gnu_parse ->
     gnu_parse (stderr_pipe (process tc)) <> [] ->
     exists r, fst (get_report tc) = Ok r /\
       report_get ExitStatus r =
         Some (default (exit_code_f64 (process tc))
                 (report_get ExitStatus (gnu_parse (stderr_pipe (process tc)))))).
Proof.
  split; [|split].
  - intros m v. reflexivity.
  - intros m v. cbn. apply report_get_insert.
  - intros tc Hf Hr Hp Hne. rewrite get_report_fresh; auto. rewrite Hp.
    destruct (gnu_parse _) as [|c m] eqn:E; [congruence|]. cbn [report_is_empty].
    rewrite <- E. eexists; split; [reflexivity|].
    destruct (report_get ExitStatus (gnu_parse _)) as [v|] eqn:Eg; simpl.
    + exact Eg.
    + apply report_get_insert.
Qed.

Definition gnu_exit_status_process : Process :=
  mkProcess true
    [("Command being timed", zero); ("User time (seconds)", lit 0.01);
     ("Exit status", lit 3.0)] (Some 0%Z).

Lemma gnu_exit_status_from_parse_witness :
  exists r, fst (get_report (mkTimeCmd gnu_exit_status_process Ready gnu_parse None)) = Ok r /\
    report_get ExitStatus r =
      Some (default (exit_code_f64 gnu_exit_status_process)
              (report_get ExitStatus (gnu_parse (stderr_pipe gnu_exit_status_process)))).
Proof.
  apply (proj2 (proj2 gnu_exit_status_from_parse)
           (mkTimeCmd gnu_exit_status_process Ready gnu_parse None));
    [reflexivity | reflexivity | reflexivity | vm_compute; congruence].
Defined.

(** C3's counterexample: the child exits with code [0] while its
    diagnostic text reports [Exit status: 3]; the report holds [3]. *)
Example gnu_exit_status_counterexample :
  fst (get_report (mkTimeCmd gnu_exit_status_process Ready gnu_parse None)) =
    Ok [(User, lit 0.01); (ExitStatus, lit 3.0)] /\
  exit_code_f64 gnu_exit_status_process = zero.
Proof. vm_compute. split; reflexivity. Qed.

End CmdClaims.

(* ------------------------------------------------------------------ *)
(** * Command normalisation *)

Module CliClaims.
Import CliArgs.

Definition finish (st : list string * list string) : list string :=
  let '(commands, one_command_and_args) := st in
  match one_command_and_args with
  | [] => commands
  | _ :: _ => commands ++ [String.concat " " one_command_and_args]
  end.

Lemma normalized_commands_finish args :
  normalized_commands args = finish (fold_left normalize_step args ([], [])).
Proof. reflexivity. Qed.

Lemma normalize_step_prefix p cmds oca one :
  normalize_step (p ++ cmds, oca) one =
  (p ++ fst (normalize_step (cmds, oca) one), snd (normalize_step (cmds, oca) one)).
Proof.
  unfold normalize_step. destruct oca;
    repeat (destruct (String.eqb _ _) || destruct (contains _ _)); simpl;
    rewrite ?app_assoc; reflexivity.
Qed.

Lemma fold_prefix l : forall p cmds oca,
  fold_left normalize_step l (p ++ cmds, oca) =
  (p ++ fst (fold_left normalize_step l (cmds, oca)),
   snd (fold_left normalize_step l (cmds, oca))).
Proof.
  induction l as [|one l IH]; intros p cmds oca; cbn [fold_left]; [reflexivity|].
  rewrite normalize_step_prefix.
  destruct (normalize_step (cmds, oca) one) as [c o]. cbn [fst snd].
  apply IH.
Qed.

Lemma finish_prefix p st : finish (p ++ fst st, snd st) = p ++ finish st.
Proof. destruct st as [c [|o os]]; simpl; rewrite ?app_assoc; reflexivity. Qed.

Lemma finish_single x rest :
  finish (fold_left normalize_step rest ([x], [])) =
  x :: finish (fold_left normalize_step rest ([], [])).
Proof.
  pose proof (fold_prefix rest [x] [] []) as H. rewrite app_nil_r in H.
  rewrite H, finish_prefix. reflexivity.
Qed.

Lemma fold_args args : forall cmds o os,
  forallb (fun a => negb (String.eqb a delimiters)) args = true ->
  fold_left normalize_step args (cmds, o :: os) = (cmds, o :: os ++ map to_quoted args).
Proof.
  induction args as [|a args IH]; intros cmds o os Hargs; simpl.
  - rewrite app_nil_r. reflexivity.
  - simpl in Hargs. apply andb_prop in Hargs as [Ha Hargs].
    apply negb_true_iff in Ha. rewrite Ha. rewrite IH by exact Hargs.
    rewrite <- app_assoc. reflexivity.
Qed.

(** C4 (corrected). The first token of a command stays bare, and a first
    token holding a space is a whole command of its own; [--] closes a
    command; every later token is left as it is when it starts with [-] or
    is already quoted (["..."] or ['...']), and is otherwise put in single
    quotes with each inner single quote escaped as [\']. *)
Theorem cli_quoting_policy :
  (forall s, starts_with s dash = true -> to_quoted s = s) /\
  (forall s, is_quoted s = true -> to_quoted s = s) /\
  (forall s, is_quoted s = false -> starts_with s dash = false ->
     to_quoted s =
       String squote (String.append (escape_squote s) (String squote EmptyString))) /\
  (forall rest, normalized_commands (delimiters :: rest) = normalized_commands rest) /\
  (forall c rest, contains c space = true ->
     normalized_commands (c :: rest) = c :: normalized_commands rest) /\
  (forall c args rest,
     String.eqb c delimiters = false -> contains c space = false ->
     forallb (fun a => negb (String.eqb a delimiters)) args = true ->
     normalized_commands (c :: args ++ delimiters :: rest) =
       String.concat " " (c :: map to_quoted args) :: normalized_commands rest) /\
  (forall c args,
     String.eqb c delimiters = false -> contains c space = false ->
     forallb (fun a => negb (String.eqb a delimiters)) args = true ->
     normalized_commands (c :: args) = [String.concat " " (c :: map to_quoted args)]).
Proof.
  split; [|split; [|split; [|split; [|split; [|split]]]]].
  - intros s H. unfold to_quoted. rewrite H, orb_true_r. reflexivity.
  - intros s H. unfold to_quoted. rewrite H. reflexivity.
  - intros s H1 H2. unfold to_quoted. rewrite H1, H2. reflexivity.
  - intros rest. reflexivity.
  - intros c rest Hc. rewrite !normalized_commands_finish. simpl.
    assert (Hd : String.eqb c delimiters = false).
    { destruct (String.eqb c delimiters) eqn:E; [|reflexivity].
      apply String.eqb_eq in E. subst c. discriminate. }
    rewrite Hd, Hc. simpl.
    apply finish_single.
  - intros c args rest Hd Hc Hargs. rewrite !normalized_commands_finish. simpl.
    rewrite Hd, Hc. simpl. rewrite fold_left_app, fold_args by exact Hargs. simpl.
    apply finish_single.
  - intros c args Hd Hc Hargs. rewrite !normalized_commands_finish. simpl.
    rewrite Hd, Hc. simpl. rewrite fold_args by exact Hargs. reflexivity.
Qed.

Lemma cli_quoting_policy_witness :
  normalized_commands ["cmd1"; "arg1"; "-o"; "--"; "cmd2"] =
    String.concat " " ("cmd1" :: map to_quoted ["arg1"; "-o"]) :: normalized_commands ["cmd2"].
Proof.
  apply (proj1 (proj2 (proj2 (proj2 (proj2 (proj2 cli_quoting_policy)))))
           "cmd1" ["arg1"; "-o"] ["cmd2"]); reflexivity.
Defined.

(** C4's counterexample: [arg1] has no space and no leading [-] and is
    quoted; [-o] has a leading [-] and stays bare. *)
Example cli_quoting_counterexample :
  normalized_commands ["cmd1"; "arg1"; "-o"] = ["cmd1 'arg1' -o"].
Proof. vm_compute. reflexivity. Qed.

End CliClaims.


Module StatsFacts.
Import FloatOrder Sorting StatsInv Reach CalcFacts.

Lemma search_right_loop_ok l x lo : forall k,
  let r := StatsRs.search_right_loop l x lo k in
  lo <= r <= lo + k /\
  (forall j, r <= j -> j < lo + k -> F64.leb (idx l j) x = false) /\
  (lo < r -> F64.leb (idx l (r - 1)) x = true).
Proof.
  induction k as [|k IH]; simpl.
  - split; [lia|]. split; [intros; lia|lia].
  - destruct (F64.leb (idx l (lo + k)) x) eqn:E.
    + split; [lia|]. split; [intros; lia|].
      intros _. replace (S (lo + k) - 1) with (lo + k) by lia. exact E.
    + destruct IH as (H1 & H2 & H3). split; [lia|]. split; [|exact H3].
      intros j Hj1 Hj2. destruct (decide (j = lo + k)) as [->|]; [exact E|].
      apply H2; lia.
Qed.

Lemma bisect_right_len l x :
  StronglySorted fle l -> finite_all l -> F64.is_finite x = true ->
  Forall (fun y => fle y x) l -> StatsRs.bisect_right l x 0 (length l) = length l.
Proof.
  intros Hs Hf Hx Hall.
  destruct (bisect_right_ok l x Hs Hf Hx) as (Hr & _ & Hhi).
  set (r := StatsRs.bisect_right l x 0 (length l)) in *.
  destruct (decide (r = length l)) as [E|E]; [exact E|].
  exfalso. pose proof (Hhi r ltac:(lia) ltac:(lia)) as H.
  destruct (lookup_lt_is_Some_2 l r ltac:(lia)) as [y Hy].
  rewrite (idx_lookup _ _ _ Hy) in H.
  pose proof (Forall_lookup_1 _ _ _ _ Hall Hy) as Hy'. unfold fle in Hy'.
  rewrite (ltb_not_leb _ _ H) in Hy'. discriminate.
Qed.

Lemma sort_only_finite_go_sorted : forall l acc,
  sorted_inv (acc ++ l) ->
  fold_left StatsRs.insert_finite l acc = acc ++ l.
Proof.
  induction l as [|x l IH]; intros acc [Hf Hs]; simpl; [rewrite app_nil_r; reflexivity|].
  assert (Hx : F64.is_finite x = true).
  { unfold finite_all in Hf. rewrite Forall_app in Hf. destruct Hf as [_ Hf].
    inversion Hf; auto. }
  assert (Hins : StatsRs.insert_finite acc x = acc ++ [x]).
  { unfold StatsRs.insert_finite. rewrite Hx. simpl.
    unfold finite_all in Hf. rewrite Forall_app in Hf. destruct Hf as [Hfa _].
    rewrite bisect_right_len; auto.
    - unfold vec_insert. rewrite take_ge, drop_ge by lia. reflexivity.
    - eapply StronglySorted_app_1_l. exact Hs.
    - apply Forall_forall. intros y Hy.
      eapply StronglySorted_app_1_elem_of; [exact Hs|exact Hy|left]. }
  rewrite Hins, IH; rewrite <- app_assoc; [reflexivity|split; auto].
Qed.


(** [outlier_count] counts the samples outside [[lcl, ucl]], on both paths
    of [calc]. *)
Lemma outlier_count_filter s n :
  sorted_inv s ->
  outlier_count (of_sorted s n) =
  length (filter (fun x => within (lcl (of_sorted s n)) (ucl (of_sorted s n)) x = false) s).
Proof.
  intros Hinv. destruct (decide (s = [])) as [->|Hne]; [reflexivity|].
  destruct (of_sorted_eqs s n Hne) as (_ & _ & _ & _ & _ & _ & _ & Hout & _).
  destruct (decide (outlier_count (of_sorted s n) = 0)) as [H0|H0].
  - rewrite H0. pose proof (zero_outliers_within s n Hinv Hne H0) as Hall.
    destruct (filter _ s) as [|y l] eqn:E; [reflexivity|].
    assert (y ∈ filter (fun x => within (lcl (of_sorted s n)) (ucl (of_sorted s n)) x
                                 = false) s) as Hy by (rewrite E; left).
    apply list_elem_of_filter in Hy as [Hy1 Hy2].
    rewrite Forall_forall in Hall. rewrite (Hall y Hy2) in Hy1. discriminate.
  - rewrite Hout in *. destruct (_ && _); [congruence|].
    rewrite fold_count_filter. reflexivity.
Qed.

Lemma length_filter_bool (P : f64 -> bool) (l : list f64) :
  length l = length (filter (fun x => P x = true) l) + length (filter (fun x => P x = false) l).
Proof.
  induction l as [|x l IH]; [reflexivity|].
  rewrite !filter_cons. destruct (P x) eqn:E.
  - rewrite decide_True, decide_False by congruence. simpl. lia.
  - rewrite decide_False, decide_True by congruence. simpl. lia.
Qed.

Lemma filter_bool_eq (P : f64 -> bool) (l : list f64) :
  filter (fun x => P x = true) l = List.filter P l.
Proof.
  induction l as [|x l IH]; [reflexivity|].
  rewrite filter_cons. simpl. destruct (P x) eqn:E.
  - rewrite decide_True by reflexivity. f_equal. exact IH.
  - rewrite decide_False by congruence. exact IH.
Qed.

(** In ascending samples, the first one at or above [lo] is the first one
    in [[lo, hi]] once some sample is in [[lo, hi]]. *)
Lemma find_lo_first_within lo hi s :
  StronglySorted fle s -> Exists (fun x => within lo hi x = true) s ->
  List.find (fun x => F64.leb lo x) s = head (List.filter (within lo hi) s).
Proof.
  induction 1 as [|a s Hs IH Ha]; intros Hex; [inversion Hex|].
  simpl. destruct (within lo hi a) eqn:Ew.
  - unfold within in Ew. apply andb_true_iff in Ew as [E1 E2]. rewrite E1. reflexivity.
  - destruct (F64.leb lo a) eqn:E1.
    + exfalso. apply Exists_cons in Hex as [Hx|Hx]; [congruence|].
      apply Exists_exists in Hx as [y [Hy Hwy]].
      unfold within in Ew, Hwy. rewrite E1 in Ew. simpl in Ew.
      apply andb_true_iff in Hwy as [_ Hy2].
      rewrite Forall_forall in Ha.
      assert (F64.leb a hi = true) by (apply (leb_trans _ y); [apply Ha; first [exact Hy | apply list_elem_of_In, Hy]|exact Hy2]).
      congruence.
    + apply IH. apply Exists_cons in Hex as [Hx|Hx]; [congruence|exact Hx].
Qed.

Lemma filter_false_nil (P : f64 -> bool) l :
  (forall y, In y l -> P y = false) -> List.filter P l = [].
Proof.
  induction l as [|x l IH]; intros H; [reflexivity|].
  simpl. rewrite (H x (or_introl eq_refl)). apply IH. intros y Hy. apply H. right. exact Hy.
Qed.

Lemma last_cons_ne {A} (a : A) l : l <> [] -> last (a :: l) = last l.
Proof. destruct l; [congruence|reflexivity]. Qed.

(** Symmetrically, the last sample at or below [hi] is the last one in
    [[lo, hi]]. *)
Lemma last_hi_last_within lo hi s :
  StronglySorted fle s -> Exists (fun x => within lo hi x = true) s ->
  last (List.filter (fun x => F64.leb x hi) s) = last (List.filter (within lo hi) s).
Proof.
  induction 1 as [|a s Hs IH Ha]; intros Hex; [inversion Hex|].
  destruct (decide (Exists (fun x => within lo hi x = true) s)) as [Hs'|Hs'].
  - assert (Hne1 : List.filter (within lo hi) s <> []).
    { apply Exists_exists in Hs' as [y [Hy Hwy]]. apply list_elem_of_In in Hy. intros E.
      assert (In y (List.filter (within lo hi) s)) by (apply filter_In; auto).
      rewrite E in H. inversion H. }
    assert (Hne2 : List.filter (fun x => F64.leb x hi) s <> []).
    { apply Exists_exists in Hs' as [y [Hy Hwy]]. apply list_elem_of_In in Hy. intros E.
      unfold within in Hwy. apply andb_true_iff in Hwy as [_ Hy2].
      assert (In y (List.filter (fun x => F64.leb x hi) s)) by (apply filter_In; auto).
      rewrite E in H. inversion H. }
    simpl. destruct (F64.leb a hi), (within lo hi a);
      rewrite ?last_cons_ne by assumption; apply IH; exact Hs'.
  - apply Exists_cons in Hex as [Hw|Hx]; [|contradiction].
    assert (Hall : forall y, In y s -> within lo hi y = false /\ F64.leb y hi = false).
    { intros y Hy. assert (Hwy : within lo hi y = false).
      { destruct (within lo hi y) eqn:E; [|reflexivity].
        exfalso. apply Hs'. apply Exists_exists. exists y. split; [apply list_elem_of_In, Hy|exact E]. }
      split; [exact Hwy|].
      unfold within in Hw, Hwy. apply andb_true_iff in Hw as [Hw1 _].
      rewrite Forall_forall in Ha.
      assert (F64.leb lo y = true) by (apply (leb_trans _ a); [exact Hw1|apply Ha; first [exact Hy | apply list_elem_of_In, Hy]]).
      rewrite H in Hwy. exact Hwy. }
    assert (E1 : List.filter (within lo hi) s = []).
    { apply filter_false_nil. intros y Hy. exact (proj1 (Hall y Hy)). }
    assert (E2 : List.filter (fun x => F64.leb x hi) s = []).
    { apply filter_false_nil. intros y Hy. exact (proj2 (Hall y Hy)). }
    simpl. rewrite Hw. unfold within in Hw. apply andb_true_iff in Hw as [_ Hw2].
    rewrite Hw2, E1, E2. reflexivity.
Qed.

End StatsFacts.


Module StatsExtras.
Import FloatOrder Sorting StatsInv Reach CalcFacts StatsFacts.

(** [bisect_right] over a sorted finite vector and a finite [x] returns the
    insertion point after every element [<= x]: all elements before it are
    [<= x], all from it on are [> x]. *)
Theorem bisect_right_spec (l : list f64) (x : f64) :
  StronglySorted fle l -> finite_all l -> F64.is_finite x = true ->
  let r := StatsRs.bisect_right l x 0 (length l) in
  r <= length l /\
  (forall j, j < r -> F64.leb (idx l j) x = true) /\
  (forall j, r <= j -> j < length l -> F64.ltb x (idx l j) = true).
Proof. intros Hs Hf Hx. exact (bisect_right_ok l x Hs Hf Hx). Qed.

Lemma bisect_right_spec_witness :
  let l := map lit [1.0; 2.0; 2.0; 3.0]%float in
  StronglySorted fle l /\ finite_all l /\ F64.is_finite (lit 2.0) = true /\
  StatsRs.bisect_right l (lit 2.0) 0 (length l) <= length l.
Proof.
  intros l.
  assert (Hs : StronglySorted fle l) by (repeat constructor).
  assert (Hf : finite_all l) by (repeat constructor).
  split; [exact Hs|]. split; [exact Hf|]. split; [reflexivity|].
  exact (proj1 (bisect_right_spec l (lit 2.0) Hs Hf eq_refl)).
Defined.



(** On a sorted finite vector and a finite [x], the linear [search_right]
    and the binary [bisect_right] give the same index over the whole range. *)
Theorem search_right_agrees (l : list f64) (x : f64) :
  StronglySorted fle l -> finite_all l -> F64.is_finite x = true ->
  StatsRs.search_right l x 0 (length l) = StatsRs.bisect_right l x 0 (length l).
Proof.
  intros Hs Hf Hx.
  destruct (search_right_loop_ok l x 0 (length l)) as (S1 & S2 & S3).
  destruct (bisect_right_ok l x Hs Hf Hx) as (B1 & B2 & B3).
  unfold StatsRs.search_right. rewrite Nat.sub_0_r.
  set (r1 := StatsRs.search_right_loop l x 0 (length l)) in *.
  set (r2 := StatsRs.bisect_right l x 0 (length l)) in *.
  destruct (Nat.lt_total r1 r2) as [Hlt|[Heq|Hlt]]; [exfalso| exact Heq |exfalso].
  - pose proof (S2 (r2 - 1) ltac:(lia) ltac:(lia)) as E.
    pose proof (B2 (r2 - 1) ltac:(lia)) as E'. unfold fle in E'. congruence.
  - pose proof (S3 ltac:(lia)) as E.
    pose proof (B3 (r1 - 1) ltac:(lia) ltac:(lia)) as E'.
    rewrite (ltb_not_leb _ _ E') in E. discriminate.
Qed.

Lemma search_right_agrees_witness :
  let l := map lit [1.0; 2.0; 2.0; 3.0]%float in
  StronglySorted fle l /\ finite_all l /\ F64.is_finite (lit 2.0) = true /\
  StatsRs.search_right l (lit 2.0) 0 (length l) = StatsRs.bisect_right l (lit 2.0) 0 (length l).
Proof.
  intros l.
  assert (Hs : StronglySorted fle l) by (repeat constructor).
  assert (Hf : finite_all l) by (repeat constructor).
  split; [exact Hs|]. split; [exact Hf|]. split; [reflexivity|].
  exact (search_right_agrees l (lit 2.0) Hs Hf eq_refl).
Defined.

(** [sort_only_finite] leaves a sorted vector of finite values unchanged. *)
Theorem sort_only_finite_fixpoint (l : list f64) :
  finite_all l -> StronglySorted fle l -> StatsRs.sort_only_finite l = l.
Proof.
  intros Hf Hs. unfold StatsRs.sort_only_finite.
  apply (sort_only_finite_go_sorted l []). split; assumption.
Qed.

Lemma sort_only_finite_fixpoint_witness :
  let l := map lit [1.0; 2.0; 2.0; 3.0]%float in
  finite_all l /\ StronglySorted fle l /\ StatsRs.sort_only_finite l = l.
Proof.
  intros l.
  assert (Hs : StronglySorted fle l) by (repeat constructor).
  assert (Hf : finite_all l) by (repeat constructor).
  split; [exact Hf|]. split; [exact Hs|].
  exact (sort_only_finite_fixpoint l Hf Hs).
Defined.

(** Building statistics and then calling [add] with more samples gives the
    statistics [new] computes from all samples at once. *)
Theorem run_is_new_of_all (samples adds : list f64) :
  run samples adds = new (samples ++ adds).
Proof. rewrite run_of_sorted, new_of_sorted. reflexivity. Qed.

(** [count_excluding_outlier] never underflows: it is the number of
    finite samples inside [[lcl, ucl]]. *)
Theorem count_excluding_outlier_within (samples adds : list f64) :
  let st := run samples adds in
  count_excluding_outlier st =
  Some (length (List.filter (within (lcl st) (ucl st)) (sorted_samples st))).
Proof.
  intros st. subst st.
  pose proof (run_sorted_inv samples adds) as [Hinv _].
  rewrite run_of_sorted in *. revert Hinv.
  generalize (StatsRs.sort_only_finite (samples ++ adds)) as s.
  generalize (length (filter nonfin (samples ++ adds))) as n.
  intros n s Hinv. rewrite of_sorted_sorted in Hinv |- *.
  unfold count_excluding_outlier. rewrite of_sorted_sorted.
  rewrite (outlier_count_filter s n Hinv).
  rewrite (length_filter_bool (within (lcl (of_sorted s n)) (ucl (of_sorted s n))) s).
  rewrite filter_bool_eq.
  replace (_ <=? _) with true by (symmetry; apply Nat.leb_le; lia).
  f_equal. lia.
Qed.

(** [has_outlier] holds exactly when some finite sample lies outside
    [[lcl, ucl]]. *)
Theorem has_outlier_iff (samples adds : list f64) :
  let st := run samples adds in
  has_outlier st = true <->
  Exists (fun x => within (lcl st) (ucl st) x = false) (sorted_samples st).
Proof.
  intros st. subst st.
  pose proof (run_sorted_inv samples adds) as [Hinv _].
  rewrite run_of_sorted in *. revert Hinv.
  generalize (StatsRs.sort_only_finite (samples ++ adds)) as s.
  generalize (length (filter nonfin (samples ++ adds))) as n.
  intros n s Hinv. rewrite of_sorted_sorted in Hinv |- *.
  unfold has_outlier. rewrite (outlier_count_filter s n Hinv), Nat.ltb_lt.
  set (P := fun x => within (lcl (of_sorted s n)) (ucl (of_sorted s n)) x = false).
  split.
  - intros Hlt. destruct (filter P s) as [|y l] eqn:E; [simpl in Hlt; lia|].
    assert (Hy : y ∈ filter P s) by (rewrite E; left).
    apply list_elem_of_filter in Hy as [Hy1 Hy2].
    apply Exists_exists. exists y. auto.
  - intros Hex. apply Exists_exists in Hex as [y [Hy1 Hy2]].
    assert (Hy : y ∈ filter P s) by (apply list_elem_of_filter; auto).
    destruct (filter P s); [by apply not_elem_of_nil in Hy|simpl; lia].
Qed.


(** With at least one finite sample, [min] and [max] are samples, bound
    every sample, and bound the median. *)
Theorem min_max_bound (samples adds : list f64) :
  let st := run samples adds in
  sorted_samples st <> [] ->
  min st ∈ sorted_samples st /\ max st ∈ sorted_samples st /\
  (forall x, x ∈ sorted_samples st -> fle (min st) x /\ fle x (max st)) /\
  fle (min st) (median st) /\ fle (median st) (max st).
Proof.
  intros st. subst st.
  destruct (run_sorted_inv samples adds) as [[Hf Hs] _].
  unfold min, max, median.
  destruct (sorted_samples (run samples adds)) as [|a s] eqn:E; [congruence|].
  intros _. cbn [first_or_zero].
  assert (Hle : forall x, x ∈ a :: s -> fle a x /\ fle x (last_or_zero (a :: s))).
  { intros x Hx. split; [|apply sorted_le_last; auto].
    apply elem_of_cons in Hx as [->|Hx].
    - apply leb_refl. inversion Hf; auto.
    - inversion Hs as [|? ? _ Ha]; subst. rewrite Forall_forall in Ha. apply Ha, Hx. }
  assert (Hmed : default zero ((a :: s) !! (length (a :: s) / 2)) ∈ a :: s).
  { destruct (lookup_lt_is_Some_2 (a :: s) (length (a :: s) / 2)) as [y Hy].
    - apply Nat.div_lt; simpl; lia.
    - rewrite Hy. simpl. eapply list_elem_of_lookup_2. exact Hy. }
  split; [left|]. split; [apply last_or_zero_elem|]. split; [exact Hle|].
  split; apply Hle; exact Hmed.
Qed.

Lemma min_max_bound_witness :
  sorted_samples (run [lit 2.0; nan] [lit 1.0]) <> [] /\
  min (run [lit 2.0; nan] [lit 1.0]) ∈ sorted_samples (run [lit 2.0; nan] [lit 1.0]).
Proof.
  assert (H : sorted_samples (run [lit 2.0; nan] [lit 1.0]) <> [])
    by (vm_compute; discriminate).
  split; [exact H|].
  exact (proj1 (min_max_bound [lit 2.0; nan] [lit 1.0] H)).
Defined.

(** When some sample lies inside [[lcl, ucl]], [min_excluding_outlier]
    and [max_excluding_outlier] are the first and last such samples. *)
Theorem excluding_outlier_extremes (samples adds : list f64) :
  let st := run samples adds in
  let w := List.filter (within (lcl st) (ucl st)) (sorted_samples st) in
  Exists (fun x => within (lcl st) (ucl st) x = true) (sorted_samples st) ->
  min_excluding_outlier st = first_or_zero w /\
  max_excluding_outlier st = last_or_zero w.
Proof.
  intros st w Hex. subst st w.
  destruct (run_sorted_inv samples adds) as [[_ Hs] _].
  unfold min_excluding_outlier, max_excluding_outlier, last_or_zero.
  rewrite (find_lo_first_within _ _ _ Hs Hex), (last_hi_last_within _ _ _ Hs Hex).
  split; [|reflexivity].
  destruct (List.filter _ _); reflexivity.
Qed.

Lemma excluding_outlier_extremes_witness :
  let st := run test_outlier [] in
  Exists (fun x => within (lcl st) (ucl st) x = true) (sorted_samples st) /\
  min_excluding_outlier st =
    first_or_zero (List.filter (within (lcl st) (ucl st)) (sorted_samples st)).
Proof.
  intros st.
  assert (H : Exists (fun x => within (lcl st) (ucl st) x = true) (sorted_samples st)).
  { apply Exists_exists. exists (lit 3.0). split; [|vm_compute; reflexivity].
    apply list_elem_of_In. vm_compute. tauto. }
  split; [exact H|].
  exact (proj1 (excluding_outlier_extremes test_outlier [] H)).
Defined.

(** With no finite sample every accessor is total: the means, deviations,
    extremes and coefficients of variation are zero, no outlier is
    reported, and every sample is counted as NaN. *)
Theorem empty_stats_accessors (samples adds : list f64) :
  let st := run samples adds in
  count st = 0 ->
  mean st = zero /\ stdev st = zero /\
  min_excluding_outlier st = zero /\ max_excluding_outlier st = zero /\
  median_excluding_outlier st = zero /\
  count_excluding_outlier st = Some 0 /\ has_outlier st = false /\
  calc_cv st = zero /\ calc_cv_excluding_outlier st = zero /\
  nan_count st = length samples + length adds.
Proof.
  intros st. subst st. unfold count. intros H0.
  pose proof (run_sorted_inv samples adds) as [_ Hp].
  rewrite run_of_sorted in *. rewrite of_sorted_sorted in H0, Hp.
  apply length_zero_iff_nil in H0. rewrite H0 in Hp |- *.
  rewrite of_sorted_nil. repeat split; try reflexivity.
  simpl. rewrite <- length_app, (length_filter_split (samples ++ adds)).
  apply Permutation_nil in Hp. rewrite Hp. reflexivity.
Qed.

Lemma empty_stats_accessors_witness :
  count (run [nan] [infinity]) = 0 /\ calc_cv (run [nan] [infinity]) = zero.
Proof.
  assert (H : count (run [nan] [infinity]) = 0) by (vm_compute; reflexivity).
  split; [exact H|].
  exact (proj1 (proj2 (proj2 (proj2 (proj2 (proj2 (proj2 (proj2
           (empty_stats_accessors [nan] [infinity] H))))))))).
Defined.

End StatsExtras.


Module MeanFacts.
Import FloatOrder Sorting StatsInv Reach.

Lemma eqb_of_not_ltb x y :
  F64.is_finite x = true -> F64.is_finite y = true ->
  F64.ltb x y = false -> F64.ltb y x = false -> F64.eqb x y = true.
Proof. intros; float_cases. Qed.

Lemma eqb_sym x y : F64.eqb x y = F64.eqb y x.
Proof. float_cases. Qed.

Lemma idx_default l i : idx l i = default zero (l !! i).
Proof. unfold idx. rewrite nth_lookup. reflexivity. Qed.

Lemma skip_equal_some x : forall rest i r,
  MeanRs.skip_equal x rest i = Some r -> StatsRs.skip_equal x rest i = r.
Proof.
  induction rest as [|y rest IH]; intros i r; simpl; [discriminate|].
  destruct (F64.eqb x y); [apply IH|congruence].
Qed.

Lemma bisect_right_go_some l x : forall fuel lo hi r,
  MeanRs.bisect_right_go fuel l x lo hi = Some r ->
  StatsRs.bisect_right_go fuel l x lo hi = r.
Proof.
  induction fuel as [|fuel IH]; intros lo hi r;
    cbn [MeanRs.bisect_right_go StatsRs.bisect_right_go]; [congruence|].
  destruct (hi <=? lo); [congruence|].
  destruct (hi + 7 <=? lo); [congruence|].
  destruct (l !! (lo + (hi - lo) / 2)) as [y|] eqn:Ey; [|congruence].
  rewrite (idx_lookup _ _ _ Ey).
  destruct (F64.ltb x y); [apply IH|].
  destruct (F64.ltb y x); [apply IH|apply skip_equal_some].
Qed.

Lemma insert_finite_some l x l' :
  MeanRs.insert_finite l x = Some l' -> l' = StatsRs.insert_finite l x.
Proof.
  unfold MeanRs.insert_finite, StatsRs.insert_finite.
  destruct (negb (F64.is_finite x)); [congruence|].
  unfold MeanRs.bisect_right, StatsRs.bisect_right.
  destruct (MeanRs.bisect_right_go _ _ _ _ _) as [r|] eqn:E; [|congruence].
  rewrite (bisect_right_go_some _ _ _ _ _ _ E).
  destruct (r <=? length l); congruence.
Qed.

Definition mean_step (acc : option (list f64)) (x : f64) : option (list f64) :=
  match acc with None => None | Some sorted => MeanRs.insert_finite sorted x end.

Lemma fold_mean_step_none data : fold_left mean_step data None = None.
Proof. induction data; simpl; auto. Qed.

Lemma fold_mean_step_some data : forall acc s,
  fold_left mean_step data (Some acc) = Some s ->
  s = fold_left StatsRs.insert_finite data acc.
Proof.
  induction data as [|x data IH]; intros acc s; simpl; [congruence|].
  destruct (MeanRs.insert_finite acc x) as [acc'|] eqn:E.
  - rewrite (insert_finite_some _ _ _ E). apply IH.
  - rewrite fold_mean_step_none. congruence.
Qed.

Lemma sort_only_finite_some data s :
  MeanRs.sort_only_finite data = Some s -> s = StatsRs.sort_only_finite data.
Proof. apply fold_mean_step_some. Qed.

(** With no element of [l] equal to [x], the search of [mean.rs] never
    takes its [x == sorted[mid]] branch and agrees with [stats.rs]. *)
Lemma bisect_right_go_distinct l x :
  finite_all l -> F64.is_finite x = true ->
  (forall y, y ∈ l -> F64.eqb x y = false) ->
  forall fuel lo hi, hi <= length l ->
  MeanRs.bisect_right_go fuel l x lo hi = Some (StatsRs.bisect_right_go fuel l x lo hi).
Proof.
  intros Hf Hx Hne. induction fuel as [|fuel IH]; intros lo hi Hhi;
    cbn [MeanRs.bisect_right_go StatsRs.bisect_right_go]; [reflexivity|].
  destruct (hi <=? lo) eqn:E1; [reflexivity|]. apply Nat.leb_gt in E1.
  destruct (hi + 7 <=? lo); [reflexivity|].
  assert ((hi - lo) / 2 < hi - lo) by (apply Nat.div_lt; lia).
  destruct (lookup_lt_is_Some_2 l (lo + (hi - lo) / 2) ltac:(lia)) as [y Ey].
  rewrite Ey, (idx_lookup _ _ _ Ey).
  destruct (F64.ltb x y) eqn:E3; [apply IH; lia|].
  destruct (F64.ltb y x) eqn:E4; [apply IH; lia|].
  exfalso.
  assert (Hy : F64.is_finite y = true)
    by (rewrite <- (idx_lookup _ _ _ Ey); apply idx_finite, Hf).
  pose proof (eqb_of_not_ltb x y Hx Hy E3 E4) as Heq.
  rewrite (Hne y (list_elem_of_lookup_2 _ _ _ Ey)) in Heq. discriminate.
Qed.

Lemma insert_finite_distinct l x :
  sorted_inv l ->
  (F64.is_finite x = true -> forall y, y ∈ l -> F64.eqb x y = false) ->
  MeanRs.insert_finite l x = Some (StatsRs.insert_finite l x).
Proof.
  intros [Hf Hs] Hne. unfold MeanRs.insert_finite, StatsRs.insert_finite.
  destruct (F64.is_finite x) eqn:Hx; [|reflexivity]. simpl.
  unfold MeanRs.bisect_right.
  rewrite (bisect_right_go_distinct l x Hf Hx (Hne eq_refl)) by lia.
  fold (StatsRs.bisect_right l x 0 (length l)).
  destruct (bisect_right_ok l x Hs Hf Hx) as (Hr & _ & _).
  apply Nat.leb_le in Hr. rewrite Hr. reflexivity.
Qed.

Definition distinct (l : list f64) : Prop := ForallOrdPairs (fun a b => F64.eqb a b = false) l.

Lemma fold_distinct data : forall acc,
  sorted_inv acc ->
  (forall x y, x ∈ filter fin data -> y ∈ acc -> F64.eqb x y = false) ->
  distinct (filter fin data) ->
  fold_left mean_step data (Some acc) = Some (fold_left StatsRs.insert_finite data acc).
Proof.
  induction data as [|x data IH]; intros acc Hacc Hne Hd; simpl; [reflexivity|].
  rewrite filter_cons in Hne, Hd. unfold fin in *.
  destruct (F64.is_finite x) eqn:Hx.
  - rewrite decide_True in Hne, Hd by reflexivity.
    rewrite (insert_finite_distinct acc x Hacc).
    2:{ intros _ y Hy. apply Hne; [left|exact Hy]. }
    inversion Hd as [|? ? Hx' Hd']; subst.
    apply IH; [apply insert_finite_inv, Hacc| |exact Hd'].
    intros x' y Hx'' Hy. rewrite (insert_finite_perm acc x) in Hy.
    rewrite filter_cons, filter_nil, decide_True in Hy by exact Hx. simpl in Hy.
    apply elem_of_cons in Hy as [->|Hy].
    + rewrite eqb_sym. rewrite Forall_forall in Hx'. apply Hx', Hx''.
    + apply Hne; [right; exact Hx''|exact Hy].
  - rewrite decide_False in Hne, Hd by congruence.
    unfold MeanRs.insert_finite at 1. rewrite Hx. simpl.
    rewrite (insert_finite_nonfin acc x Hx). apply IH; auto.
Qed.

Lemma sort_only_finite_distinct data :
  distinct (filter fin data) ->
  MeanRs.sort_only_finite data = Some (StatsRs.sort_only_finite data).
Proof.
  intros Hd. apply fold_distinct; auto.
  - split; constructor.
  - intros x y _ Hy. by apply not_elem_of_nil in Hy.
Qed.

End MeanFacts.


Module MeanExtras.
Import FloatOrder Sorting StatsInv Reach MeanFacts.

(** When [Mean::new] returns with a non-empty population, all its fields
    equal those [Stats::new] computes on the same input. *)
Theorem mean_new_agrees_with_stats (population : list f64) (m : MeanRs.Mean) :
  MeanRs.Mean_new population = Some m -> MeanRs.sorted_population m <> [] ->
  let st := new population in
  MeanRs.sorted_population m = sorted_samples st /\
  MeanRs.nan_count m = nan_count st /\
  MeanRs.median m = median st /\ MeanRs.mad m = mad st /\
  MeanRs.outlier_count m = outlier_count st /\
  MeanRs.outlier_lower m = lcl st /\ MeanRs.outlier_upper m = ucl st /\
  MeanRs.mean m = mean st /\
  MeanRs.mean_excluding_outlier m = mean_excluding_outlier st /\
  MeanRs.stdev m = stdev st /\
  MeanRs.stdev_excluding_outlier m = stdev_excluding_outlier st.
Proof.
  intros Hm Hne st. subst st. unfold MeanRs.Mean_new in Hm.
  destruct population as [|p ps]; [injection Hm as <-; contradiction|].
  destruct (MeanRs.sort_only_finite (p :: ps)) as [s|] eqn:Es; [|discriminate].
  apply sort_only_finite_some in Es.
  unfold new. rewrite <- Es.
  destruct s as [|a s]; [injection Hm as <-; contradiction|].
  injection Hm as <-. cbn zeta. unfold median. simpl sorted_samples.
  rewrite <- idx_default. repeat split; reflexivity.
Qed.

Lemma mean_new_agrees_with_stats_witness :
  exists m, MeanRs.Mean_new test_normal = Some m /\ MeanRs.sorted_population m <> [] /\
    MeanRs.median m = median (new test_normal).
Proof.
  destruct (MeanRs.Mean_new test_normal) as [m|] eqn:E; [|vm_compute in E; discriminate].
  assert (Hne : MeanRs.sorted_population m <> []).
  { vm_compute in E. injection E as <-. vm_compute. discriminate. }
  exists m. split; [reflexivity|]. split; [exact Hne|].
  exact (proj1 (proj2 (proj2 (mean_new_agrees_with_stats test_normal m E Hne)))).
Defined.

(** [Mean::new] on a non-empty input of non-finite values returns an empty
    population with [outlier_count] the input length, where [Stats::new]
    counts the same values as NaN and reports no outlier. *)
Theorem mean_new_all_nonfinite (population : list f64) :
  population <> [] -> Forall (fun x => F64.is_finite x = false) population ->
  MeanRs.Mean_new population =
    Some (MeanRs.mkMean [] 0 zero zero (length population) zero zero zero zero zero zero) /\
  nan_count (new population) = length population /\
  outlier_count (new population) = 0 /\ sorted_samples (new population) = [].
Proof.
  intros Hne Hall.
  assert (Hm : forall acc, fold_left mean_step population (Some acc) = Some acc).
  { clear Hne. induction Hall as [|x l Hx _ IH]; intros acc; [reflexivity|].
    simpl. unfold MeanRs.insert_finite at 1. rewrite Hx. apply IH. }
  assert (Hs : StatsRs.sort_only_finite population = []).
  { unfold StatsRs.sort_only_finite. generalize (@nil f64) as acc.
    clear Hne Hm. induction Hall as [|x l Hx _ IH]; intros acc; [reflexivity|].
    simpl. rewrite (insert_finite_nonfin acc x Hx). apply IH. }
  split.
  - unfold MeanRs.Mean_new. destruct population as [|p ps]; [congruence|].
    unfold MeanRs.sort_only_finite. fold mean_step. rewrite Hm. reflexivity.
  - unfold new. rewrite Hs. simpl. split; [lia|]. split; reflexivity.
Qed.

Lemma mean_new_all_nonfinite_witness :
  [nan; infinity] <> [] /\ Forall (fun x => F64.is_finite x = false) [nan; infinity] /\
  MeanRs.outlier_count (default MeanRs.mean_default (MeanRs.Mean_new [nan; infinity])) = 2.
Proof.
  assert (H1 : [nan; infinity] <> []) by discriminate.
  assert (H2 : Forall (fun x => F64.is_finite x = false) [nan; infinity])
    by (repeat constructor).
  split; [exact H1|]. split; [exact H2|].
  rewrite (proj1 (mean_new_all_nonfinite [nan; infinity] H1 H2)). reflexivity.
Defined.

(** [Mean::new] does not panic when no two finite inputs are equal. *)
Theorem mean_new_no_panic_when_distinct (population : list f64) :
  ForallOrdPairs (fun a b => F64.eqb a b = false)
    (filter (fun y => F64.is_finite y = true) population) ->
  MeanRs.Mean_new population <> None.
Proof.
  intros Hd. unfold MeanRs.Mean_new.
  destruct population as [|p ps]; [discriminate|].
  rewrite (sort_only_finite_distinct (p :: ps) Hd). cbn zeta.
  destruct (_ =? 0); discriminate.
Qed.

Lemma mean_new_no_panic_when_distinct_witness :
  ForallOrdPairs (fun a b => F64.eqb a b = false)
    (filter (fun y => F64.is_finite y = true) test_normal) /\
  MeanRs.Mean_new test_normal <> None.
Proof.
  assert (H : ForallOrdPairs (fun a b => F64.eqb a b = false)
                (filter (fun y => F64.is_finite y = true) test_normal)).
  { vm_compute. repeat constructor. }
  split; [exact H|]. exact (mean_new_no_panic_when_distinct test_normal H).
Defined.

End MeanExtras.


Module CmdExtras.
Import Cmd.

(** Once [get_report] succeeds, a later call returns the same report and
    leaves the command unchanged. *)
Theorem get_report_cached (tc : TimeCmd) (r : Report) :
  fst (get_report tc) = Ok r ->
  get_report (snd (get_report tc)) = (Ok r, snd (get_report tc)).
Proof.
  unfold get_report. destruct (finished (process tc)) eqn:Ef; [|discriminate].
  simpl. destruct (meas_report tc) as [r'|] eqn:Em.
  - simpl. intros H. injection H as <-. rewrite Ef, Em. reflexivity.
  - destruct (report_is_empty _) eqn:Ee; [discriminate|].
    simpl. intros H. injection H as <-. rewrite Ef. reflexivity.
Qed.

Lemma get_report_cached_witness :
  let tc := mkTimeCmd (mkProcess true [("Exit status", lit 3.0)] (Some 0%Z))
              Checking gnu_parse None in
  fst (get_report tc) = Ok [(ExitStatus, lit 3.0)] /\
  get_report (snd (get_report tc)) = (Ok [(ExitStatus, lit 3.0)], snd (get_report tc)).
Proof.
  intros tc.
  assert (H : fst (get_report tc) = Ok [(ExitStatus, lit 3.0)]) by (vm_compute; reflexivity).
  split; [exact H|]. exact (get_report_cached tc _ H).
Defined.

(** A parse error of [get_report] is returned again by the next call
    when the parser finds nothing in a drained pipe. *)
Theorem get_report_error_sticky (tc : TimeCmd) (e : CmdError) :
  fst (get_report tc) = Err e -> parse_meas_items tc [] = [] ->
  get_report (snd (get_report tc)) = (Err e, snd (get_report tc)).
Proof.
  intros He Hp. unfold get_report in *.
  destruct (finished (process tc)) eqn:Ef; simpl in *.
  - destruct (meas_report tc) as [r|] eqn:Em; [discriminate|].
    destruct (report_is_empty (parse_meas_items tc (stderr_pipe (process tc)))) eqn:Ee;
      [|discriminate].
    simpl in *. injection He as <-. rewrite Ef, Em, Hp. reflexivity.
  - injection He as <-. rewrite Ef. reflexivity.
Qed.

Lemma get_report_error_sticky_witness :
  let tc := mkTimeCmd (mkProcess true [("Command being timed", lit 1.0)] (Some 0%Z))
              Ready gnu_parse None in
  fst (get_report tc) = Err (ParseError "time") /\ parse_meas_items tc [] = [] /\
  get_report (snd (get_report tc)) = (Err (ParseError "time"), snd (get_report tc)).
Proof.
  intros tc.
  assert (H1 : fst (get_report tc) = Err (ParseError "time")) by (vm_compute; reflexivity).
  assert (H2 : parse_meas_items tc [] = []) by reflexivity.
  split; [exact H1|]. split; [exact H2|]. exact (get_report_error_sticky tc _ H1 H2).
Defined.

(** [ready_status] only leaves [Checking], once the child has finished,
    to [Error] or [Ready] after the parse of its output; [execute] and
    [get_report] never change the status. *)
Theorem ready_status_lifecycle (tc : TimeCmd) :
  (ready_status tc <> Checking -> get_ready_status tc = (ready_status tc, tc)) /\
  (ready_status tc = Checking -> finished (process tc) = true ->
     let r := if report_is_empty (parse_meas_items tc (stderr_pipe (process tc)))
              then Error else Ready in
     fst (get_ready_status tc) = r /\ ready_status (snd (get_ready_status tc)) = r) /\
  (ready_status tc = Checking -> finished (process tc) = false ->
     get_ready_status tc = (Checking, tc)) /\
  (forall spawned, ready_status (snd (execute tc spawned)) = ready_status tc) /\
  ready_status (snd (get_report tc)) = ready_status tc.
Proof.
  unfold get_ready_status, execute, get_report.
  split; [|split; [|split; [|split]]].
  - intros H. destruct (ready_status tc); [congruence|reflexivity|reflexivity].
  - intros H1 H2. rewrite H1, H2. simpl. split; reflexivity.
  - intros H1 H2. rewrite H1, H2. reflexivity.
  - intros spawned. destruct (negb _); [reflexivity|].
    destruct spawned; reflexivity.
  - destruct (negb _); [reflexivity|]. destruct (meas_report tc); [reflexivity|].
    simpl. destruct (report_is_empty _); [reflexivity|]. reflexivity.
Qed.

Lemma ready_status_lifecycle_witness :
  let tc := mkTimeCmd (mkProcess true [("Exit status", lit 3.0)] (Some 0%Z))
              Checking gnu_parse None in
  fst (get_ready_status tc) = Ready /\ ready_status (snd (get_ready_status tc)) = Ready.
Proof.
  intros tc.
  exact (proj1 (proj2 (ready_status_lifecycle tc)) eq_refl eq_refl).
Defined.



(** A failed spawn clears the cached report, so [get_report] then
    reports a parse error when the old child left no output. *)
Theorem execute_spawn_failure_drops_report (tc : TimeCmd) :
  ready_status tc = Ready -> finished (process tc) = true ->
  stderr_pipe (process tc) = [] -> parse_meas_items tc [] = [] ->
  fst (get_report (snd (execute tc None))) = Err (ParseError "time").
Proof.
  intros H1 H2 H3 H4. unfold execute. rewrite H1. simpl.
  unfold get_report. simpl. rewrite H2, H3, H4. reflexivity.
Qed.

Lemma execute_spawn_failure_drops_report_witness :
  let tc := mkTimeCmd (mkProcess true [] (Some 0%Z)) Ready gnu_parse
              (Some [(ExitStatus, lit 0.0)]) in
  fst (get_report tc) = Ok [(ExitStatus, lit 0.0)] /\
  fst (get_report (snd (execute tc None))) = Err (ParseError "time").
Proof.
  intros tc. split; [reflexivity|].
  exact (execute_spawn_failure_drops_report tc eq_refl eq_refl eq_refl eq_refl).
Defined.

Lemma report_insert_not_nil k v m : report_insert k v m <> [].
Proof. destruct m as [|[k' v'] m]; simpl; [|destruct (decide _)]; discriminate. Qed.

Lemma fold_insert_not_nil {A} (step : Report -> A -> Report) caps m :
  (forall m c, m <> [] -> step m c <> []) -> m <> [] -> fold_left step caps m <> [].
Proof.
  intros Hs. revert m. induction caps as [|c caps IH]; intros m Hm; simpl; auto.
Qed.

Lemma builtin_step_not_nil m c : builtin_step m c <> [].
Proof.
  destruct c as [n v]. unfold builtin_step.
  repeat (destruct (String.eqb _ _)); apply report_insert_not_nil.
Qed.

Lemma bsd_step_not_nil m c : bsd_step m c <> [].
Proof.
  destruct c as [n v]. unfold bsd_step.
  repeat (destruct (String.eqb _ _)); apply report_insert_not_nil.
Qed.

Lemma gnu_step_cbt m c :
  fst c = "Command being timed" -> gnu_step m c = m.
Proof. destruct c as [n v]. simpl. intros ->. reflexivity. Qed.

Lemma gnu_step_not_nil m c :
  fst c <> "Command being timed" -> gnu_step m c <> [].
Proof.
  destruct c as [n v]. simpl. intros Hn. unfold gnu_step.
  destruct (String.eqb_spec n "Command being timed"); [congruence|].
  repeat (destruct (String.eqb _ _)); apply report_insert_not_nil.
Qed.

Lemma gnu_step_keeps m c : m <> [] -> gnu_step m c <> [].
Proof.
  intros Hm. destruct (decide (fst c = "Command being timed")) as [E|E].
  - rewrite gnu_step_cbt by exact E. exact Hm.
  - apply gnu_step_not_nil, E.
Qed.

Lemma gnu_fold_nil caps : forall m,
  fold_left gnu_step caps m = [] <->
  m = [] /\ Forall (fun c => fst c = "Command being timed") caps.
Proof.
  induction caps as [|c caps IH]; intros m; simpl.
  - split; [intros ->; auto|intros [-> _]; reflexivity].
  - rewrite IH. destruct (decide (fst c = "Command being timed")) as [E|E].
    + rewrite gnu_step_cbt by exact E.
      split; [intros [H1 H2]; split; [exact H1|constructor; auto]|].
      intros [H1 H2]. inversion H2; auto.
    + split; [intros [H1 _]; exfalso; exact (gnu_step_not_nil m c E H1)|].
      intros [_ H2]. inversion H2; congruence.
Qed.

(** The builtin and BSD parsers produce an empty report only from no
    captures; the GNU parser only from [Command being timed] lines. *)
Theorem parsers_empty (caps : list Capture) :
  (builtin_parse caps = [] <-> caps = []) /\
  (bsd_parse caps = [] <-> caps = []) /\
  (gnu_parse caps = [] <-> Forall (fun c => fst c = "Command being timed") caps).
Proof.
  split; [|split].
  - split; [|intros ->; reflexivity].
    destruct caps as [|c caps]; [reflexivity|]. unfold builtin_parse. simpl.
    intros H. exfalso. revert H. apply fold_insert_not_nil;
      [intros; apply builtin_step_not_nil|apply builtin_step_not_nil].
  - split; [|intros ->; reflexivity].
    destruct caps as [|c caps]; [reflexivity|]. unfold bsd_parse. simpl.
    intros H. exfalso. revert H. apply fold_insert_not_nil;
      [intros; apply bsd_step_not_nil|apply bsd_step_not_nil].
  - unfold gnu_parse. rewrite gnu_fold_nil. tauto.
Qed.















Lemma width_calls_some w : forall ls, width_calls (Some w) ls = repeat w (length ls).
Proof. induction ls as [|l ls IH]; simpl; [reflexivity|]. rewrite IH. reflexivity. Qed.

Lemma fold_max_ge (f : MeasItem -> nat) items : forall acc,
  acc <= fold_left (fun w item => Nat.max w (f item)) items acc /\
  (forall item, item ∈ items -> f item <= fold_left (fun w item => Nat.max w (f item)) items acc).
Proof.
  induction items as [|it items IH]; intros acc; simpl.
  - split; [lia|]. intros item Hi. by apply not_elem_of_nil in Hi.
  - destruct (IH (Nat.max acc (f it))) as [H1 H2]. split; [lia|].
    intros item Hi. apply elem_of_cons in Hi as [->|Hi]; [lia|]. apply H2, Hi.
Qed.

(** [meas_item_name_max_width] returns, on every call, the width computed
    for the [loops] of the first call, which bounds every item name for
    those [loops]. *)
Theorem name_width_first_call (l0 : N) (ls : list N) :
  width_calls None (l0 :: ls) = repeat (max_width l0) (S (length ls)) /\
  (forall item, item ∈ meas_item_all ->
     String.length (meas_item_name item l0) <= max_width l0).
Proof.
  split.
  - simpl. rewrite width_calls_some. reflexivity.
  - intros item Hi. unfold max_width.
    apply (proj2 (fold_max_ge (fun item => String.length (meas_item_name item l0))
                              meas_item_all 0)), Hi.
Qed.

End CmdExtras.


Module CliExtras.
Import CliArgs.

Lemma ends_with_append_single a c : ends_with (String.append a (String c EmptyString)) c = true.
Proof.
  induction a as [|c' a IH]; simpl.
  - apply Ascii.eqb_refl.
  - destruct (String.append a (String c EmptyString)) eqn:E.
    + destruct a; discriminate.
    + exact IH.
Qed.

(** [to_quoted] yields a quoted or dash-led token, and quoting it again
    changes nothing. *)
Theorem to_quoted_idempotent (s : string) :
  is_quoted (to_quoted s) || starts_with (to_quoted s) dash = true /\
  to_quoted (to_quoted s) = to_quoted s.
Proof.
  assert (H : is_quoted (to_quoted s) || starts_with (to_quoted s) dash = true).
  { unfold to_quoted. destruct (is_quoted s || starts_with s dash) eqn:E; [exact E|].
    apply orb_true_iff. left. unfold is_quoted. simpl.
    destruct (String.append _ _) eqn:Ea; [reflexivity|].
    rewrite <- Ea. apply ends_with_append_single. }
  split; [exact H|]. unfold to_quoted at 1. rewrite H. reflexivity.
Qed.

Lemma contains_append a b c : contains (String.append a b) c = contains a c || contains b c.
Proof. induction a as [|c' a IH]; simpl; [reflexivity|]. rewrite IH, orb_assoc. reflexivity. Qed.

Lemma join_not_delimiter o os :
  String.eqb o delimiters = false ->
  String.concat " " (o :: os) <> delimiters.
Proof.
  intros Ho. destruct os as [|o' os].
  - simpl. intros E. rewrite E, String.eqb_refl in Ho. discriminate.
  - intros E.
    assert (Hc : contains (String.concat " " (o :: o' :: os)) space = true).
    { change (String.concat " " (o :: o' :: os))
        with (String.append o (String.append " " (String.concat " " (o' :: os)))).
      rewrite !contains_append. simpl. rewrite orb_true_r. reflexivity. }
    rewrite E in Hc. discriminate.
Qed.

(** What the loop of [normalized_commands] keeps: no finished command is
    the delimiter, and a pending command does not start with it. *)
Definition step_inv (st : list string * list string) : Prop :=
  Forall (fun c => c <> delimiters) (fst st) /\
  match snd st with [] => True | o :: _ => String.eqb o delimiters = false end.

Lemma normalize_step_inv st one : step_inv st -> step_inv (normalize_step st one).
Proof.
  destruct st as [cmds oca]. unfold step_inv, normalize_step. simpl. intros [Hc Ho].
  destruct oca as [|o os].
  - destruct (String.eqb one delimiters) eqn:E; [split; auto|].
    destruct (contains one space); simpl; split; auto.
    apply Forall_app; split; auto. constructor; auto.
    intros ->. rewrite String.eqb_refl in E. discriminate.
  - destruct (String.eqb one delimiters) eqn:E; simpl; split; auto.
    apply Forall_app; split; auto. constructor; auto. apply join_not_delimiter, Ho.
Qed.

(** No command that [normalized_commands] returns is the delimiter [--]. *)
Theorem normalized_commands_no_delimiter (args : list string) :
  Forall (fun c => c <> delimiters) (normalized_commands args).
Proof.
  assert (H : step_inv (fold_left normalize_step args ([], []))).
  { assert (Hi : step_inv ([] : list string, [] : list string)) by (split; simpl; auto).
    revert Hi. generalize ([] : list string, [] : list string).
    induction args as [|a args IH]; intros st Hst; simpl; [exact Hst|].
    apply IH, normalize_step_inv, Hst. }
  unfold normalized_commands. destruct (fold_left _ _ _) as [cmds oca].
  destruct H as [Hc Ho]. simpl in *. destruct oca as [|o os]; [exact Hc|].
  apply Forall_app. split; [exact Hc|]. constructor; [|constructor].
  apply join_not_delimiter, Ho.
Qed.


(** The tail of [normalized_commands] after its loop. *)
Definition flush (st : list string * list string) : list string :=
  let '(commands, one_command_and_args) := st in
  match one_command_and_args with
  | [] => commands
  | _ :: _ => commands ++ [String.concat " " one_command_and_args]
  end.

Lemma flush_nil st : flush st = [] <-> fst st = [] /\ snd st = [].
Proof.
  destruct st as [c [|o os]]; simpl; [tauto|].
  split; [intros H; exfalso; destruct c; discriminate|intros [_ H]; discriminate].
Qed.

Lemma normalize_step_nil st one :
  normalize_step st one = ([], []) <-> st = ([], []) /\ one = delimiters.
Proof.
  destruct st as [cmds [|o os]]; unfold normalize_step.
  - destruct (String.eqb_spec one delimiters) as [->|Hne].
    + split; [intros H; split; [exact H|reflexivity]|intros [H _]; exact H].
    + split; [|intros [_ H]; contradiction].
      destruct (contains one space); intros H; apply pair_equal_spec in H as [H1 H2];
        destruct cmds; simpl in *; discriminate.
  - split; [|intros [H _]; discriminate].
    destruct (String.eqb one delimiters); intros H; apply pair_equal_spec in H as [H1 H2];
      destruct cmds; simpl in *; discriminate.
Qed.

Lemma fold_flush_nil args : forall st,
  flush (fold_left normalize_step args st) = [] <->
  st = ([], []) /\ Forall (fun a => a = delimiters) args.
Proof.
  induction args as [|a args IH]; intros st; simpl.
  - rewrite flush_nil. destruct st as [c o]; simpl.
    split; [intros [-> ->]; auto|intros [H _]; injection H as -> ->; auto].
  - rewrite IH, normalize_step_nil. split.
    + intros [[H1 H2] H3]. split; [exact H1|constructor; auto].
    + intros [H1 H2]. inversion H2; subst. auto.
Qed.

(** [normalized_commands] returns no command exactly when every argument
    is the delimiter [--]. *)
Theorem normalized_commands_nil_iff (args : list string) :
  normalized_commands args = [] <-> Forall (fun a => a = delimiters) args.
Proof.
  assert (E : normalized_commands args = flush (fold_left normalize_step args ([], [])))
    by reflexivity.
  rewrite E, fold_flush_nil. tauto.
Qed.

End CliExtras.
